(** * Dorothea: event selection city of Invisible Cities

    A shallow embedding of [invisible_cities/cities/dorothea.py] and the
    properties of its event loop, file loop, run summary and driver.

    The class [Dorothea] inherits [select_event] from [S12SelectorCity] and
    [max_events_reached] from [City]; both live in [base_cities.py].  The
    loops below take them from the instance record, as the Python code takes
    them from [self].  The selection logic itself is modelled in the module
    [Selector]. *)

From Stdlib Require Import QArith Qminmax.
From stdpp Require Import gmap list sorting strings.

Open Scope Z_scope.

(** ** Exceptions and results *)

(** The exception classes the code distinguishes.  A constructor stands for
    the class and its subclasses. *)
Inductive exn : Type :=
| ValueError
| NoSuchNodeError
| ZeroDivisionError
| OtherException (name : string).

Inductive result (A : Type) : Type :=
| Ok (a : A)
| Raise (e : exn).
Arguments Ok {A} a.
Arguments Raise {A} e.

(** [except (ValueError, tb.exceptions.NoSuchNodeError)] *)
Definition is_empty_file_error (e : exn) : bool :=
  match e with
  | ValueError | NoSuchNodeError => true
  | ZeroDivisionError | OtherException _ => false
  end.

(** ** Data read from the input files *)

(** Modelled from the spec: the peak class of the PMap reader is missing.
    A peak has a sequence of (time, amplitude) samples; the drift formula
    reads its attributes [time] and [start_time]. *)
Record Peak : Type := mkPeak {
  time       : Q;
  start_time : Q;
  samples    : list (Q * Q)
}.

(** Peak id -> peak, for one event and one peak class. *)
Abbreviation PeakMap := (gmap Z Peak).
(** Sensor id -> charge samples, for one S2 peak. *)
Abbreviation Sensors := (gmap Z (list Q)).
(** Peak id -> sensor breakdown, for one event. *)
Abbreviation SiMap := (gmap Z Sensors).

(** What [load_pmaps] returns: three dicts keyed by event number. *)
Record PMaps : Type := mkPMaps {
  S1s   : gmap Z PeakMap;
  S2s   : gmap Z PeakMap;
  S2Sis : gmap Z SiMap
}.

(** Modelled from the spec: the record class [select_event] returns is
    missing.  An accepted event carries the event number, the timestamp, the
    chosen S1 peak id, the chosen S2 peak ids and one drift value per chosen
    S2. *)
Record AcceptedEvent : Type := mkAcceptedEvent {
  event  : Z;
  evtime : Z;
  s1_id  : Z;
  s2_ids : list Z;
  drift  : list Q
}.

(** The two readers of the input files.  [load_pmaps] may raise. *)
Record FileSystem : Type := mkFileSystem {
  load_pmaps : string -> result PMaps;
  get_event_numbers_and_timestamps_from_file_name : string -> list Z * list Z
}.

(** ** The instance *)

(** The attributes and inherited methods of [self] that the loops use. *)
Record City : Type := mkCity {
  input_files        : list string;
  nprint             : Z;
  max_events_reached : Z -> Z -> bool;
  select_event       : Z -> Z -> PeakMap -> PeakMap -> SiMap -> option AcceptedEvent
}.

(** ** Effects *)

Inductive msg : Type :=
| Opening (filename : string)
| EmptyFileSkipping
| MaxEventsReached
| FileOK
| EvtsAnalyzed (n : Z)
| Summary (n_in n_out : Z) (ratio : Q)
| TimeSummary (n_in : Z) (dt per_event : Q).

(** One call of [self.select_event]. *)
Record SelectCall : Type := mkSelectCall {
  call_evt  : Z;
  call_time : Z;
  call_S1   : PeakMap;
  call_S2   : PeakMap;
  call_Si   : SiMap
}.

(** The counters of the run together with what the run has done so far:
    the records handed to [write_kr], the lines printed and the calls of
    [select_event], each oldest first. *)
Record State : Type := mkState {
  nevt_in  : Z;
  nevt_out : Z;
  sink     : list AcceptedEvent;
  stdout   : list msg;
  selected : list SelectCall
}.

(** [nevt_in = nevt_out = 0], output file opened with mode "w". *)
Definition initial : State := mkState 0 0 [] [] [].

Definition print (m : msg) (st : State) : State :=
  mkState (nevt_in st) (nevt_out st) (sink st) (stdout st ++ [m]) (selected st).

Definition write_kr (evt : AcceptedEvent) (st : State) : State :=
  mkState (nevt_in st) (nevt_out st) (sink st ++ [evt]) (stdout st) (selected st).

Definition log_call (c : SelectCall) (st : State) : State :=
  mkState (nevt_in st) (nevt_out st) (sink st) (stdout st) (selected st ++ [c]).

Definition incr_in (st : State) : State :=
  mkState (nevt_in st + 1) (nevt_out st) (sink st) (stdout st) (selected st).

Definition incr_out (st : State) : State :=
  mkState (nevt_in st) (nevt_out st + 1) (sink st) (stdout st) (selected st).

(** ** The event loop *)

(** The sub-maps of one event: [S1s.get(evt_number, {})] and the like. *)
Definition event_maps (pm : PMaps) (evt_number : Z) : PeakMap * PeakMap * SiMap :=
  (default ∅ (S1s pm !! evt_number),
   default ∅ (S2s pm !! evt_number),
   default ∅ (S2Sis pm !! evt_number)).

(** One iteration of the [for] of [_event_loop].  The boolean is the
    [break]: [true] when [max_events_reached] holds.  [nevt_in % nprint]
    raises when [nprint] is zero. *)
Definition event_step (self : City) (nmax : Z) (pm : PMaps)
    (evt_number evt_time : Z) (st : State) : State * result bool :=
  let st := incr_in st in
  let '(S1, S2, Si) := event_maps pm evt_number in
  let evt := select_event self evt_number evt_time S1 S2 Si in
  let st := log_call (mkSelectCall evt_number evt_time S1 S2 Si) st in
  let st := match evt with
            | Some e => write_kr e (incr_out st)
            | None => st
            end in
  if nprint self =? 0 then (st, Raise ZeroDivisionError)
  else
    let st := if nevt_in st mod nprint self =? 0
              then print (EvtsAnalyzed (nevt_in st)) st else st in
    (st, Ok (max_events_reached self nmax (nevt_in st))).

(** The loop over [zip(event_numbers, timestamps)]. *)
Fixpoint event_iter (self : City) (nmax : Z) (pm : PMaps)
    (evts : list (Z * Z)) (st : State) : State * result bool :=
  match evts with
  | [] => (st, Ok false)
  | (evt_number, evt_time) :: rest =>
      match event_step self nmax pm evt_number evt_time st with
      | (st, Ok false) => event_iter self nmax pm rest st
      | (st, Ok true) => (st, Ok true)
      | (st, Raise e) => (st, Raise e)
      end
  end.

(** [_event_loop]: the counters come in and go out in the state; the
    boolean returned is [max_events_reached]. *)
Definition _event_loop (self : City) (event_numbers timestamps : list Z)
    (nmax : Z) (pm : PMaps) (st : State) : State * result bool :=
  event_iter self nmax pm (zip event_numbers timestamps) st.

(** ** The file loop *)

(** The [for filename in self.input_files] of [_main_loop]. *)
Fixpoint file_iter (self : City) (fs : FileSystem) (nmax : Z)
    (files : list string) (st : State) : State * result unit :=
  match files with
  | [] => (st, Ok tt)
  | filename :: rest =>
      let st := print (Opening filename) st in
      match load_pmaps fs filename with
      | Raise e =>
          if is_empty_file_error e
          then file_iter self fs nmax rest (print EmptyFileSkipping st)
          else (st, Raise e)
      | Ok pm =>
          let '(event_numbers, timestamps) :=
            get_event_numbers_and_timestamps_from_file_name fs filename in
          match _event_loop self event_numbers timestamps nmax pm st with
          | (st, Raise e) => (st, Raise e)
          | (st, Ok true) => (print MaxEventsReached st, Ok tt)
          | (st, Ok false) => file_iter self fs nmax rest (print FileOK st)
          end
      end
  end.

(** [_main_loop]: starts from zeroed counters; the pair it returns is
    [(nevt_in, nevt_out)] of the final state. *)
Definition _main_loop (self : City) (fs : FileSystem) (nmax : Z)
  : State * result (Z * Z) :=
  match file_iter self fs nmax (input_files self) initial with
  | (st, Ok _) => (st, Ok (nevt_in st, nevt_out st))
  | (st, Raise e) => (st, Raise e)
  end.

(** ** The run and the driver *)

(** True division of two integers; raises on a zero divisor. *)
Definition truediv (a b : Z) : result Q :=
  if b =? 0 then Raise ZeroDivisionError
  else Ok (inject_Z a / inject_Z b)%Q.

(** [dt / nevt_in] with [dt] a float. *)
Definition fdiv (a : Q) (b : Z) : result Q :=
  if b =? 0 then Raise ZeroDivisionError
  else Ok (a / inject_Z b)%Q.

(** [run]: the main loop, then the summary with [nevt_out / nevt_in].
    [display_IO_info] and the opening of the output file are left out: the
    state starts with an empty sink, as the file is opened with mode "w". *)
Definition run (self : City) (fs : FileSystem) (nmax : Z)
  : State * result (Z * Z) :=
  match _main_loop self fs nmax with
  | (st, Raise e) => (st, Raise e)
  | (st, Ok (n_in, n_out)) =>
      match truediv n_out n_in with
      | Raise e => (st, Raise e)
      | Ok ratio => (print (Summary n_in n_out ratio) st, Ok (n_in, n_out))
      end
  end.

(** The part of the configuration the driver reads after construction. *)
Record Config : Type := mkConfig {
  NEVENTS : Z;
  RUN_ALL : bool
}.

(** [DOROTHEA]: [dorothea] is the instance built from the configuration,
    [dt] the elapsed time [t1 - t0] read from the clock. *)
Definition DOROTHEA (CFP : Config) (dorothea : City) (fs : FileSystem)
    (dt : Q) : State * result unit :=
  let nevts := if negb (RUN_ALL CFP) then NEVENTS CFP else -1 in
  match run dorothea fs nevts with
  | (st, Raise e) => (st, Raise e)
  | (st, Ok (n_in, n_out)) =>
      match fdiv dt n_in with
      | Raise e => (st, Raise e)
      | Ok per_event => (print (TimeSummary n_in dt per_event) st, Ok tt)
      end
  end.

(** ** The inherited methods *)

(** Modelled from the spec: [max_events_reached] of the base class [City]
    (base_cities.py) is missing.  The cap [nmax] is reached by [nevt_in];
    [nmax < 0] means unbounded. *)
Definition City_max_events_reached (nmax nevt_in : Z) : bool :=
  (0 <=? nmax) && (nmax <=? nevt_in).

(** Modelled from the spec: the upper end of a multiplicity range, a count
    or no limit.  A count is read as the limit it sets. *)
Inductive count_bound : Type :=
| AtMost (n : Z)
| NoLimit.
Coercion AtMost : Z >-> count_bound.

Definition count_leb (n : Z) (b : count_bound) : bool :=
  match b with
  | AtMost m => n <=? m
  | NoLimit => true
  end.

(** Modelled from the spec: the selection logic of [S12SelectorCity]
    (base_cities.py and the peak functions it calls) is missing.  The module
    follows sections 3 and 4.1 to 4.3 of the specification; only
    [Dorothea_init] is taken from the source. *)
Module Selector.

(** Modelled from the spec: an upper bound is a number or [np.inf], the
    default of the keyword arguments. *)
Inductive bound : Type :=
| Finite (q : Q)
| Infinity.

Definition leb_bound (x : Q) (b : bound) : bool :=
  match b with
  | Finite q => Qle_bool x q
  | Infinity => true
  end.

(** Modelled from the spec: [lo <= x <= hi], both bounds inclusive. *)
Definition in_range (lo x : Q) (hi : bound) : bool :=
  Qle_bool lo x && leb_bound x hi.

(** Modelled from the spec: the criteria bundle of one peak class, missing
    with [S12SelectorCity].  Multiplicity range, energy, width and height
    ranges, the integration threshold and, for S2 only, the sensor-count
    range. *)
Record PeakCriteria : Type := mkPeakCriteria {
  Nmin  : Z;
  Nmax  : count_bound;
  Emin  : Q;
  Emax  : bound;
  Lmin  : Q;
  Lmax  : bound;
  Hmin  : Q;
  Hmax  : bound;
  Ethr  : Q;
  NSIPM : option (Q * bound)
}.

(** Modelled from the spec: the attributes [S12SelectorCity.__init__]
    (base_cities.py, missing) keeps from its keyword arguments: the drift
    velocity, the criteria of the two peak classes and the cap the reducer
    puts on the number of S2 peaks in the output. *)
Record S12SelectorCity : Type := mkS12SelectorCity {
  drift_v     : Q;
  S1_criteria : PeakCriteria;
  S2_criteria : PeakCriteria;
  S2_cap      : Z
}.

(** Modelled from the spec: [S12SelectorCity.__init__] bundles its keyword
    arguments into the criteria of the two peak classes; the sensor-count
    range belongs to S2 only.  [S1_Nmin] and [S1_Nmax] are the S1
    multiplicity range.  [S2_Nmax] is the cap of the reducer: the
    specification lets more S2 peaks than [S2_Nmax] pass the filter and be
    capped afterwards, so the S2 multiplicity range has [S2_Nmin] as its
    lower end and no upper end. *)
Definition S12SelectorCity_init (drift_v : Q)
    (S1_Nmin S1_Nmax : Z) (S1_Emin : Q) (S1_Emax : bound)
    (S1_Lmin : Q) (S1_Lmax : bound) (S1_Hmin : Q) (S1_Hmax : bound) (S1_Ethr : Q)
    (S2_Nmin S2_Nmax : Z) (S2_Emin : Q) (S2_Emax : bound)
    (S2_Lmin : Q) (S2_Lmax : bound) (S2_Hmin : Q) (S2_Hmax : bound)
    (S2_NSIPMmin : Q) (S2_NSIPMmax : bound) (S2_Ethr : Q) : S12SelectorCity :=
  mkS12SelectorCity drift_v
    (mkPeakCriteria S1_Nmin S1_Nmax S1_Emin S1_Emax S1_Lmin S1_Lmax
                    S1_Hmin S1_Hmax S1_Ethr None)
    (mkPeakCriteria S2_Nmin NoLimit S2_Emin S2_Emax S2_Lmin S2_Lmax
                    S2_Hmin S2_Hmax S2_Ethr (Some (S2_NSIPMmin, S2_NSIPMmax)))
    S2_Nmax.

(** [Dorothea.__init__], the call of [S12SelectorCity.__init__]:
    [S1_Nmin = 1], [S1_Nmax = 1] and [S2_Nmin = 1] are fixed, [S2_Nmax] is
    the argument of the constructor. *)
Definition Dorothea_init (drift_v : Q)
    (S1_Emin : Q) (S1_Emax : bound) (S1_Lmin : Q) (S1_Lmax : bound)
    (S1_Hmin : Q) (S1_Hmax : bound) (S1_Ethr : Q)
    (S2_Nmax : Z) (S2_Emin : Q) (S2_Emax : bound)
    (S2_Lmin : Q) (S2_Lmax : bound) (S2_Hmin : Q) (S2_Hmax : bound)
    (S2_NSIPMmin : Q) (S2_NSIPMmax : bound) (S2_Ethr : Q) : S12SelectorCity :=
  S12SelectorCity_init drift_v
    1 1 S1_Emin S1_Emax S1_Lmin S1_Lmax S1_Hmin S1_Hmax S1_Ethr
    1 S2_Nmax S2_Emin S2_Emax S2_Lmin S2_Lmax S2_Hmin S2_Hmax
    S2_NSIPMmin S2_NSIPMmax S2_Ethr.

(** The defaults of the keyword arguments of [Dorothea.__init__]. *)
Definition Dorothea_default : S12SelectorCity :=
  Dorothea_init 1 0 Infinity 0 Infinity 0 Infinity 0
                1 0 Infinity 0 Infinity 0 Infinity 1 Infinity 0.

(** *** Derived quantities of a peak *)

Definition Qsum (l : list Q) : Q := foldr Qplus 0%Q l.

Definition Qmaximum (l : list Q) : Q :=
  match l with
  | [] => 0%Q
  | x :: l => foldr Qmax x l
  end.

Definition Qminimum (l : list Q) : Q :=
  match l with
  | [] => 0%Q
  | x :: l => foldr Qmin x l
  end.

Definition above (thr a : Q) : bool := negb (Qle_bool a thr).
Definition nonzero (a : Q) : bool := negb (Qeq_bool a 0).

(** Modelled from the spec: integrate the samples above the threshold;
    the others contribute zero. *)
Definition integrate (thr : Q) (amplitudes : list Q) : Q :=
  Qsum (List.filter (above thr) amplitudes).

(** Modelled from the spec: the energy of a peak is the integral of its
    amplitudes. *)
Definition energy (thr : Q) (p : Peak) : Q :=
  integrate thr (map snd (samples p)).

(** Modelled from the spec: time span of the non-zero samples. *)
Definition width (p : Peak) : Q :=
  let ts := map fst (List.filter (fun s => nonzero (snd s)) (samples p)) in
  (Qmaximum ts - Qminimum ts)%Q.

(** Modelled from the spec: the maximal amplitude. *)
Definition height (p : Peak) : Q := Qmaximum (map snd (samples p)).

(** Modelled from the spec: the number of sensors whose charge, integrated
    above the threshold, is not zero. *)
Definition n_sensors (thr : Q) (si : Sensors) : Z :=
  Z.of_nat (length (List.filter (fun kv => nonzero (integrate thr (snd kv)))
                                (map_to_list si))).

(** *** PeakFilter *)

(** Modelled from the spec: the peak data PeakFilter reads, a peak with its
    per-sensor charge breakdown (empty for an S1 peak). *)
Definition PeakData : Type := Peak * Sensors.

(** Modelled from the spec: the per-peak check of PeakFilter.  A peak is
    kept iff each quantity lies in its range, bounds included. *)
Definition peak_passes (c : PeakCriteria) (pd : PeakData) : bool :=
  in_range (Emin c) (energy (Ethr c) (fst pd)) (Emax c)
  && in_range (Lmin c) (width (fst pd)) (Lmax c)
  && in_range (Hmin c) (height (fst pd)) (Hmax c)
  && match NSIPM c with
     | None => true
     | Some (lo, hi) => in_range lo (inject_Z (n_sensors (Ethr c) (snd pd))) hi
     end.

(** Modelled from the spec: the multiplicity check,
    [Nmin <= len(peak_map) <= Nmax]. *)
Definition multiplicity_ok (c : PeakCriteria) (n : nat) : bool :=
  (Nmin c <=? Z.of_nat n) && count_leb (Z.of_nat n) (Nmax c).

(** Modelled from the spec: [filter_peaks(peak_map, criteria)].  When the
    multiplicity check fails no peak is evaluated and no id passes;
    otherwise the ids of the peaks that pass, in ascending order. *)
Definition filter_peaks (peak_map : gmap Z PeakData) (c : PeakCriteria)
  : bool * list Z :=
  if multiplicity_ok c (size peak_map)
  then (true,
        merge_sort Z.le
          (map fst (List.filter (fun kv => peak_passes c (snd kv))
                                (map_to_list peak_map))))
  else (false, []).

(** *** EventReducer *)

(** Modelled from the spec: the S2 cap keeps the lowest [S2_Nmax] ids, in
    ascending order. *)
Definition cap (S2_Nmax : Z) (s2_passing : list Z) : list Z :=
  take (Z.to_nat S2_Nmax) (merge_sort Z.le s2_passing).

(** Modelled from the spec:
    [drift = (S2_peak.start_time - S1_peak.time) * drift_v]. *)
Definition drift_of (drift_v : Q) (s1 s2 : Peak) : Q :=
  ((start_time s2 - time s1) * drift_v)%Q.

(** Modelled from the spec: [reduce(s1_passing, s2_passing, s2si_map,
    drift_v)], with the peak maps the times are read from and the configured
    cap.  Exactly one S1 survivor and at least one S2 survivor are required;
    the S2 survivors are capped to the lowest [S2_Nmax] ids; each kept S2
    yields its drift value. *)
Definition reduce (S1 S2 : PeakMap) (S2_Nmax : Z)
    (s1_passing s2_passing : list Z) (s2si_map : SiMap) (drift_v : Q)
  : option (Z * list Z * list Q) :=
  match s1_passing with
  | [s1] =>
      match s2_passing with
      | [] => None
      | _ =>
          let kept := cap S2_Nmax s2_passing in
          p1 ← S1 !! s1;
          drifts ← mapM (fun id => drift_of drift_v p1 <$> S2 !! id) kept;
          Some (s1, kept, drifts)
      end
  | _ => None
  end.

(** *** EventSelector *)

(** Modelled from the spec: the peak data of the two classes; the sensor
    breakdown of an S2 peak is its entry of the S2Si map. *)
Definition S1_data (S1 : PeakMap) : gmap Z PeakData :=
  (fun p => (p, ∅)) <$> S1.

Definition S2_data (S2 : PeakMap) (Si : SiMap) : gmap Z PeakData :=
  map_imap (fun id p => Some (p, default ∅ (Si !! id))) S2.

(** Modelled from the spec: [select_event] of [S12SelectorCity]
    (base_cities.py) is missing.  Filter S1, then S2; reject when either
    multiplicity check fails; reduce with the configured S2 cap; assemble
    the accepted event. *)
Definition select_event (self : S12SelectorCity) (evt_number evt_time : Z)
    (S1 S2 : PeakMap) (Si : SiMap) : option AcceptedEvent :=
  let '(ok1, s1_passing) := filter_peaks (S1_data S1) (S1_criteria self) in
  let '(ok2, s2_passing) := filter_peaks (S2_data S2 Si) (S2_criteria self) in
  if negb (ok1 && ok2) then None
  else
    match reduce S1 S2 (S2_cap self)
                 s1_passing s2_passing Si (drift_v self) with
    | None => None
    | Some (s1, kept, drifts) =>
        Some (mkAcceptedEvent evt_number evt_time s1 kept drifts)
    end.

(** *** The checks as propositions *)

(** [lo <= x <= hi] with both ends included. *)
Definition within (lo x : Q) (hi : bound) : Prop :=
  (lo <= x)%Q /\
  match hi with
  | Finite q => (x <= q)%Q
  | Infinity => True
  end.

(** The sensor-count check, which only the S2 criteria carry. *)
Definition sensors_within (c : PeakCriteria) (pd : PeakData) : Prop :=
  match NSIPM c with
  | None => True
  | Some (lo, hi) => within lo (inject_Z (n_sensors (Ethr c) (snd pd))) hi
  end.

End Selector.

(** [Dorothea]: the instance, with the inherited methods. *)
Definition Dorothea (files_in : list string) (nprint : Z)
    (sel : Selector.S12SelectorCity) : City :=
  mkCity files_in nprint City_max_events_reached (Selector.select_event sel).

(** * Vocabulary of the properties *)

(** The call [event_step] makes for an event. *)
Definition call_of (pm : PMaps) (et : Z * Z) : SelectCall :=
  mkSelectCall (fst et) (snd et)
    (default ∅ (S1s pm !! fst et))
    (default ∅ (S2s pm !! fst et))
    (default ∅ (S2Sis pm !! fst et)).

(** What [select_event] answers to a logged call. *)
Definition answer (self : City) (c : SelectCall) : option AcceptedEvent :=
  select_event self (call_evt c) (call_time c) (call_S1 c) (call_S2 c) (call_Si c).

(** The state reached from [st] by counting one event and its answer. *)
Definition counted (self : City) (c : SelectCall) (st : State) : State :=
  let st := log_call c (incr_in st) in
  match answer self c with
  | Some e => write_kr e (incr_out st)
  | None => st
  end.

(** The relation between the counters and the effects of the run. *)
Record counters_ok (self : City) (st : State) : Prop := mkCountersOk {
  ok_bounds   : 0 <= nevt_out st <= nevt_in st;
  ok_in       : nevt_in st = Z.of_nat (length (selected st));
  ok_out      : nevt_out st = Z.of_nat (length (sink st));
  ok_accepted : sink st = omap (answer self) (selected st)
}.

(** The states a run passes through: it starts from [initial], and the
    loops only print and take event steps. *)
Inductive reachable (self : City) (nmax : Z) : State -> Prop :=
| reach_initial : reachable self nmax initial
| reach_print m st :
    reachable self nmax st -> reachable self nmax (print m st)
| reach_event pm evt_number evt_time st :
    reachable self nmax st ->
    reachable self nmax (fst (event_step self nmax pm evt_number evt_time st)).

(** A progress line of the event loop. *)
Definition is_progress (m : msg) : Prop := exists n, m = EvtsAnalyzed n.


(** The events a file offers: the zipped event index of a file that loads,
    none for a file that is skipped. *)
Definition available (fs : FileSystem) (filename : string) : Z :=
  match load_pmaps fs filename with
  | Ok _ =>
      let '(event_numbers, timestamps) :=
        get_event_numbers_and_timestamps_from_file_name fs filename in
      Z.of_nat (length (zip event_numbers timestamps))
  | Raise _ => 0
  end.

Definition total_events (fs : FileSystem) (files : list string) : Z :=
  foldr (fun filename acc => available fs filename + acc) 0 files.

(** The file loads, or fails in the way the main loop skips. *)
Definition loadable (fs : FileSystem) (filename : string) : bool :=
  match load_pmaps fs filename with
  | Ok _ => true
  | Raise e => is_empty_file_error e
  end.

(** ** The log, the calls and the file list *)

(** Two states with the same counters, records and calls; the printed
    lines may differ. *)
Definition same_data (st1 st2 : State) : Prop :=
  nevt_in st1 = nevt_in st2 /\ nevt_out st1 = nevt_out st2 /\
  sink st1 = sink st2 /\ selected st1 = selected st2.

(** The calls a file gives rise to when all of its index is consumed. *)
Definition file_calls (fs : FileSystem) (filename : string) : list SelectCall :=
  match load_pmaps fs filename with
  | Ok pm =>
      let '(event_numbers, timestamps) :=
        get_event_numbers_and_timestamps_from_file_name fs filename in
      call_of pm <$> zip event_numbers timestamps
  | Raise _ => []
  end.

Definition all_calls (fs : FileSystem) (files : list string) : list SelectCall :=
  concat (file_calls fs <$> files).

(** The file names of the "Opening" lines of a log. *)
Definition openings (log : list msg) : list string :=
  omap (fun m => match m with Opening f => Some f | _ => None end) log.

(** The progress lines due while [nevt_in] runs over [first], ...,
    [first + count - 1]. *)
Definition progress_lines (nprint first count : Z) : list msg :=
  EvtsAnalyzed <$> List.filter (fun n => n mod nprint =? 0) (seqZ first count).

(** [load_pmaps] fails in the way the main loop skips. *)
Definition skipped (fs : FileSystem) (filename : string) : bool :=
  match load_pmaps fs filename with
  | Ok _ => false
  | Raise e => is_empty_file_error e
  end.

(** The order of [str]: by code points, which for encoded strings is the
    order of the bytes. *)
Definition str_le (s1 s2 : string) : Prop := String.leb s1 s2 = true.

#[local] Instance str_le_dec : RelDecision str_le.
Proof. intros s1 s2. unfold str_le. apply _. Defined.

(** [sorted(glob.glob(CFP.FILE_IN))]: the built-in [sorted] on the list of
    names the glob returns. *)
Definition sorted (names : list string) : list string :=
  merge_sort str_le names.

(** The instance with another list of input files. *)
Definition with_files (self : City) (files_in : list string) : City :=
  mkCity files_in (nprint self) (max_events_reached self) (select_event self).

(** ** A small run *)

Module Sample.
Import Selector.

Definition s1_peak : Peak := mkPeak 100 100 [(100, 10)]%Q.
Definition s2_peak : Peak := mkPeak 500 490 [(490, 20); (500, 30)]%Q.
Definition s2_late : Peak := mkPeak 700 690 [(690, 20); (700, 30)]%Q.

Definition hits : Sensors :=
  <[3 := [1; 2]%Q]> (<[4 := [1]%Q]> {[ 5 := [1]%Q ]}).

Definition S1 : PeakMap := {[ 0 := s1_peak ]}.
Definition S2 : PeakMap := {[ 0 := s2_peak ]}.
Definition Si : SiMap := {[ 0 := hits ]}.

(** Two S2 peaks, each within the bounds of [criteria]. *)
Definition S2_two : PeakMap := <[1 := s2_late]> S2.
Definition Si_two : SiMap := <[1 := hits]> Si.

(** Bounds [0, 100] on both energies, 1 to 10 sensors, unit drift
    velocity; the S2 cap is the argument. *)
Definition criteria (S2_Nmax : Z) : S12SelectorCity :=
  Dorothea_init 1 0 (Finite 100) 0 Infinity 0 Infinity 0
                S2_Nmax 0 (Finite 100) 0 Infinity 0 Infinity
                1 (Finite 10) 0.

(** File "a" holds event 1 and an index of three events; every other
    file has no PMap data. *)
Definition fs : FileSystem :=
  mkFileSystem
    (fun filename =>
       if String.eqb filename "a"
       then Ok (mkPMaps {[ 1 := S1 ]} {[ 1 := S2 ]} {[ 1 := Si ]})
       else Raise ValueError)
    (fun _ => ([1; 2; 3], [10; 20; 30])).

Definition city : City := Dorothea ["a"; "b"; "a"] 2 (criteria 1).

(** A single file with a single event in its index. *)
Definition fs_one : FileSystem :=
  mkFileSystem (fun _ => Ok (mkPMaps ∅ ∅ ∅)) (fun _ => ([1], [10])).
End Sample.

(** * Properties *)

(** ** Helper lemmas on the state *)

Lemma event_step_unfold self nmax pm evt_number evt_time st :
  event_step self nmax pm evt_number evt_time st =
    let st1 := counted self (call_of pm (evt_number, evt_time)) st in
    if nprint self =? 0 then (st1, Raise ZeroDivisionError)
    else
      ((if nevt_in st1 mod nprint self =? 0
        then print (EvtsAnalyzed (nevt_in st1)) st1 else st1),
       Ok (max_events_reached self nmax (nevt_in st1))).
Proof.
  unfold event_step, counted, answer, call_of, event_maps. simpl.
  destruct (select_event self _ _ _ _ _); simpl;
    destruct (nprint self =? 0); try reflexivity;
    match goal with |- context [if ?b then print _ _ else _] => destruct b end;
    reflexivity.
Qed.

Lemma counted_nevt_in self c st : nevt_in (counted self c st) = nevt_in st + 1.
Proof. unfold counted. destruct (answer self c); reflexivity. Qed.

Lemma counted_nevt_out self c st :
  nevt_out (counted self c st) =
    nevt_out st + match answer self c with Some _ => 1 | None => 0 end.
Proof. unfold counted. destruct (answer self c); simpl; lia. Qed.

Lemma counted_selected self c st :
  selected (counted self c st) = selected st ++ [c].
Proof. unfold counted. destruct (answer self c); reflexivity. Qed.

Lemma counted_sink self c st :
  sink (counted self c st) = sink st ++ option_list (answer self c).
Proof.
  unfold counted. destruct (answer self c); simpl; [reflexivity|].
  by rewrite app_nil_r.
Qed.

Lemma counted_stdout self c st : stdout (counted self c st) = stdout st.
Proof. unfold counted. destruct (answer self c); reflexivity. Qed.

(** The first component of a step: the counted state, possibly with one
    progress line. *)
Lemma event_step_state self nmax pm evt_number evt_time st :
  let st1 := counted self (call_of pm (evt_number, evt_time)) st in
  let st' := fst (event_step self nmax pm evt_number evt_time st) in
  nevt_in st' = nevt_in st1 /\ nevt_out st' = nevt_out st1 /\
  sink st' = sink st1 /\ selected st' = selected st1 /\
  (stdout st' = stdout st1 \/
   stdout st' = stdout st1 ++ [EvtsAnalyzed (nevt_in st1)]).
Proof.
  rewrite event_step_unfold. cbv zeta.
  destruct (nprint self =? 0); simpl; [tauto|].
  destruct (_ =? 0); simpl; tauto.
Qed.

(** ** The counters *)

Lemma counters_ok_initial self : counters_ok self initial.
Proof. by split. Qed.

Lemma counters_ok_print self m st :
  counters_ok self st -> counters_ok self (print m st).
Proof. intros [? ? ? ?]. by split. Qed.

Lemma counters_ok_counted self c st :
  counters_ok self st -> counters_ok self (counted self c st).
Proof.
  intros [Hb Hi Ho Ha]. split.
  - rewrite counted_nevt_in, counted_nevt_out. destruct (answer self c); lia.
  - rewrite counted_nevt_in, counted_selected, length_app. simpl. lia.
  - rewrite counted_nevt_out, counted_sink, length_app.
    destruct (answer self c); simpl; lia.
  - rewrite counted_sink, counted_selected, omap_app, Ha. simpl.
    by destruct (answer self c).
Qed.

Lemma counters_ok_event_step self nmax pm evt_number evt_time st :
  counters_ok self st ->
  counters_ok self (fst (event_step self nmax pm evt_number evt_time st)).
Proof.
  intros H. rewrite event_step_unfold. cbv zeta.
  pose proof (counters_ok_counted self (call_of pm (evt_number, evt_time)) st H).
  destruct (nprint self =? 0); simpl; [done|].
  destruct (_ =? 0); simpl; [by apply counters_ok_print | done].
Qed.

Lemma counters_ok_event_iter self nmax pm evts : forall st,
  counters_ok self st ->
  counters_ok self (fst (event_iter self nmax pm evts st)).
Proof.
  induction evts as [|[evt_number evt_time] rest IH]; intros st H; simpl; [done|].
  pose proof (counters_ok_event_step self nmax pm evt_number evt_time st H) as Hs.
  destruct (event_step self nmax pm evt_number evt_time st) as [st1 [[|]|e]];
    simpl in *; auto.
Qed.

Lemma counters_ok_file_iter self fs nmax files : forall st,
  counters_ok self st ->
  counters_ok self (fst (file_iter self fs nmax files st)).
Proof.
  induction files as [|filename rest IH]; intros st H; simpl; [done|].
  pose proof (counters_ok_print self (Opening filename) st H) as Ho.
  destruct (load_pmaps fs filename) as [pm|e].
  - destruct (get_event_numbers_and_timestamps_from_file_name fs filename)
      as [event_numbers timestamps].
    pose proof (counters_ok_event_iter self nmax pm
                  (zip event_numbers timestamps) _ Ho) as He.
    unfold _event_loop.
    destruct (event_iter self nmax pm (zip event_numbers timestamps) _)
      as [st1 [[|]|e]]; simpl in *.
    + by apply counters_ok_print.
    + apply IH. by apply counters_ok_print.
    + done.
  - destruct (is_empty_file_error e); simpl; [|done].
    apply IH. by apply counters_ok_print.
Qed.

Lemma _main_loop_state self fs nmax :
  fst (_main_loop self fs nmax) =
    fst (file_iter self fs nmax (input_files self) initial).
Proof.
  unfold _main_loop. by destruct (file_iter _ _ _ _ _) as [st [[]|e]].
Qed.

Lemma _main_loop_returns self fs nmax st n_in n_out :
  _main_loop self fs nmax = (st, Ok (n_in, n_out)) ->
  n_in = nevt_in st /\ n_out = nevt_out st.
Proof.
  unfold _main_loop. destruct (file_iter _ _ _ _ _) as [st' [[]|e]];
    intros [= <- <- <-]; done.
Qed.

Lemma reachable_event_iter self nmax pm evts : forall st,
  reachable self nmax st ->
  reachable self nmax (fst (event_iter self nmax pm evts st)).
Proof.
  induction evts as [|[evt_number evt_time] rest IH]; intros st H; simpl; [done|].
  pose proof (reach_event self nmax pm evt_number evt_time st H) as Hs.
  destruct (event_step self nmax pm evt_number evt_time st) as [st1 [[|]|e]];
    simpl in *; auto.
Qed.

Lemma reachable_file_iter self fs nmax files : forall st,
  reachable self nmax st ->
  reachable self nmax (fst (file_iter self fs nmax files st)).
Proof.
  induction files as [|filename rest IH]; intros st H; simpl; [done|].
  pose proof (reach_print self nmax (Opening filename) st H) as Ho.
  destruct (load_pmaps fs filename) as [pm|e].
  - destruct (get_event_numbers_and_timestamps_from_file_name fs filename)
      as [event_numbers timestamps].
    pose proof (reachable_event_iter self nmax pm
                  (zip event_numbers timestamps) _ Ho) as He.
    unfold _event_loop.
    destruct (event_iter self nmax pm (zip event_numbers timestamps) _)
      as [st1 [[|]|e]]; simpl in *.
    + by apply reach_print.
    + apply IH. by apply reach_print.
    + done.
  - destruct (is_empty_file_error e); simpl; [|done].
    apply IH. by apply reach_print.
Qed.

Lemma reachable_counters_ok self nmax st :
  reachable self nmax st -> counters_ok self st.
Proof.
  induction 1.
  - apply counters_ok_initial.
  - by apply counters_ok_print.
  - by apply counters_ok_event_step.
Qed.

(** What the loops draw from the event index. *)

Lemma event_iter_consumed self nmax pm evts : forall st,
  exists k : nat,
    (k <= length evts)%nat /\
    (evts <> [] -> (1 <= k)%nat) /\
    (snd (event_iter self nmax pm evts st) = Ok false -> k = length evts) /\
    let st' := fst (event_iter self nmax pm evts st) in
    let calls := call_of pm <$> take k evts in
    nevt_in st' = nevt_in st + Z.of_nat k /\
    selected st' = selected st ++ calls /\
    sink st' = sink st ++ omap (answer self) calls /\
    nevt_out st' = nevt_out st + Z.of_nat (length (omap (answer self) calls)).
Proof.
  induction evts as [|[evt_number evt_time] rest IH]; intros st.
  - exists 0%nat. simpl. rewrite !app_nil_r. repeat split; try done; lia.
  - destruct (event_step_state self nmax pm evt_number evt_time st)
      as (Hi & Ho & Hsink & Hsel & _).
    rewrite counted_nevt_in in Hi. rewrite counted_nevt_out in Ho.
    rewrite counted_sink in Hsink. rewrite counted_selected in Hsel.
    remember (call_of pm (evt_number, evt_time)) as c eqn:Hc.
    assert (Hone : forall st1,
              nevt_in st1 = nevt_in st + 1 ->
              nevt_out st1 = nevt_out st +
                match answer self c with Some _ => 1 | None => 0 end ->
              sink st1 = sink st ++ option_list (answer self c) ->
              selected st1 = selected st ++ [c] ->
              let calls := call_of pm <$> take 1 ((evt_number, evt_time) :: rest) in
              nevt_in st1 = nevt_in st + Z.of_nat 1 /\
              selected st1 = selected st ++ calls /\
              sink st1 = sink st ++ omap (answer self) calls /\
              nevt_out st1 = nevt_out st +
                Z.of_nat (length (omap (answer self) calls))).
    { intros st1 H1 H2 H3 H4 calls. subst calls.
      change (take 1 ((evt_number, evt_time) :: rest))
        with [(evt_number, evt_time)].
      rewrite fmap_cons, fmap_nil, <- Hc, H1, H2, H3, H4. simpl.
      destruct (answer self c); simpl; repeat split; try done; lia. }
    simpl event_iter.
    destruct (event_step self nmax pm evt_number evt_time st)
      as [st1 [[|]|e]]; cbn [fst snd] in *.
    + exists 1%nat. split; [simpl; lia|]. split; [lia|]. split; [done|].
      by apply Hone.
    + destruct (IH st1) as (k & Hk & _ & Hall & Hin & Hs & Hsk & Hout).
      exists (S k). split; [simpl; lia|]. split; [lia|].
      split; [intros H; simpl; by rewrite (Hall H)|].
      cbv zeta in *.
      change (take (S k) ((evt_number, evt_time) :: rest))
        with ((evt_number, evt_time) :: take k rest).
      rewrite fmap_cons, <- Hc, Hin, Hs, Hsk, Hout, Hi, Ho, Hsel, Hsink.
      simpl. destruct (answer self c); simpl; rewrite <- ?app_assoc; simpl;
        repeat split; try done; unfold omap; lia.
    + exists 1%nat. split; [simpl; lia|]. split; [lia|]. split; [done|].
      by apply Hone.
Qed.

Lemma event_iter_stop_point self nmax pm evts : forall st,
  let r := event_iter self nmax pm evts st in
  let d := nevt_in (fst r) - nevt_in st in
  (snd r = Ok true -> max_events_reached self nmax (nevt_in (fst r)) = true) /\
  (forall e, snd r = Raise e ->
     e = ZeroDivisionError /\ nprint self = 0 /\ d = 1) /\
  (forall j, 1 <= j < d ->
     max_events_reached self nmax (nevt_in st + j) = false).
Proof.
  induction evts as [|[evt_number evt_time] rest IH]; intros st.
  - simpl. repeat split; try discriminate. intros j Hj. lia.
  - cbv zeta. simpl event_iter. rewrite event_step_unfold. cbv zeta.
    set (sc := counted self (call_of pm (evt_number, evt_time)) st).
    assert (Hsc : nevt_in sc = nevt_in st + 1) by apply counted_nevt_in.
    destruct (nprint self =? 0) eqn:Hz.
    + cbn [fst snd]. split; [discriminate|]. split.
      * intros e [= <-]. repeat split; lia.
      * intros j Hj. lia.
    + set (st1 := if nevt_in sc mod nprint self =? 0
                  then print (EvtsAnalyzed (nevt_in sc)) sc else sc).
      assert (Hst1 : nevt_in st1 = nevt_in st + 1).
      { subst st1.
        destruct (nevt_in sc mod nprint self =? 0); exact Hsc. }
      destruct (max_events_reached self nmax (nevt_in sc)) eqn:Hm.
      * cbn [fst snd]. rewrite Hst1, <- Hsc. split; [done|].
        split; [discriminate|]. intros j Hj. lia.
      * destruct (IH st1) as (Htrue & Hraise & Hbelow). cbv zeta in *.
        split; [done|]. split.
        -- intros e He. destruct (Hraise e He) as (_ & H0 & _). lia.
        -- intros j Hj. destruct (decide (j = 1)) as [->|Hne].
           ++ by rewrite <- Hsc.
           ++ replace (nevt_in st + j) with (nevt_in st1 + (j - 1)) by lia.
              apply Hbelow. lia.
Qed.

Lemma file_iter_calls self fs nmax files : forall st,
  exists l,
    selected (fst (file_iter self fs nmax files st)) = selected st ++ l /\
    l `prefix_of` all_calls fs files.
Proof.
  induction files as [|filename rest IH]; intros st.
  - exists []. simpl. by rewrite app_nil_r.
  - simpl. unfold all_calls. rewrite fmap_cons. simpl. fold (all_calls fs rest).
    unfold file_calls.
    destruct (load_pmaps fs filename) as [pm|e].
    + destruct (get_event_numbers_and_timestamps_from_file_name fs filename)
        as [event_numbers timestamps]. unfold _event_loop.
      destruct (event_iter_consumed self nmax pm (zip event_numbers timestamps)
                  (print (Opening filename) st))
        as (k & _ & _ & Hall & _ & Hsel & _). cbv zeta in Hsel.
      cbn [selected print] in Hsel.
      assert (Hpre : (call_of pm <$> take k (zip event_numbers timestamps))
                       `prefix_of` (call_of pm <$> zip event_numbers timestamps)).
      { exists (call_of pm <$> drop k (zip event_numbers timestamps)).
        by rewrite <- fmap_app, take_drop. }
      destruct (event_iter self nmax pm (zip event_numbers timestamps) _)
        as [st1 [[|]|e]]; cbn [fst snd] in *.
      * eexists. split; [exact Hsel|]. by apply prefix_app_r.
      * destruct (IH (print FileOK st1)) as (l' & Hl' & Hpre').
        cbn [selected print] in Hl'.
        rewrite (Hall eq_refl), firstn_all in Hsel.
        exists ((call_of pm <$> zip event_numbers timestamps) ++ l').
        rewrite Hl', Hsel, <- app_assoc. split; [done|]. by apply prefix_app.
      * eexists. split; [exact Hsel|]. by apply prefix_app_r.
    + destruct (is_empty_file_error e); cbn [fst snd].
      * destruct (IH (print EmptyFileSkipping (print (Opening filename) st)))
          as (l' & Hl' & Hpre'). cbn [selected print] in Hl'.
        by exists l'.
      * exists []. cbn [selected print]. rewrite app_nil_r.
        split; [done | apply prefix_nil].
Qed.

(** C5.  Throughout every run [0 <= nevt_out <= nevt_in].  The run starts
    from zeroed counters; one event step adds exactly one to [nevt_in] and
    adds one to [nevt_out] exactly when [select_event] returns an accepted
    record; in every state the run passes through, and in the state in which
    the main loop ends, whether it returns or raises, [nevt_out] lies between
    zero and [nevt_in], [nevt_in] counts the calls of [select_event],
    [nevt_out] counts the records written, and the records written are the
    accepted answers to those calls, in order.  One call of [_event_loop]
    draws a prefix of the zipped event index: all of it when the loop ends
    without a break, up to the first event at which [max_events_reached]
    holds when it breaks, the first event alone when it raises, and never
    nothing from a non-empty index; [nevt_in] grows by the number of events
    drawn, one call of [select_event] is made per event drawn, and [nevt_out]
    grows by the number of those calls that returned a record.  Over the
    run, the calls are a prefix of the events of the input files in file and
    index order. *)
Theorem C5_counters_invariant (self : City) (fs : FileSystem) (nmax : Z) :
  (nevt_in initial = 0 /\ nevt_out initial = 0) /\
  (forall pm evt_number evt_time st,
     let st' := fst (event_step self nmax pm evt_number evt_time st) in
     nevt_in st' = nevt_in st + 1 /\
     nevt_out st' = nevt_out st +
       match select_event self evt_number evt_time
               (default ∅ (S1s pm !! evt_number))
               (default ∅ (S2s pm !! evt_number))
               (default ∅ (S2Sis pm !! evt_number))
       with Some _ => 1 | None => 0 end) /\
  (forall st, reachable self nmax st ->
     0 <= nevt_out st <= nevt_in st /\ counters_ok self st) /\
  reachable self nmax (fst (_main_loop self fs nmax)) /\
  (forall st n_in n_out,
     _main_loop self fs nmax = (st, Ok (n_in, n_out)) ->
     0 <= n_out <= n_in) /\
  (forall event_numbers timestamps pm st,
     let index := zip event_numbers timestamps in
     let r := _event_loop self event_numbers timestamps nmax pm st in
     exists drawn,
       drawn `prefix_of` index /\
       (index <> [] -> drawn <> []) /\
       (snd r = Ok false -> drawn = index) /\
       (snd r = Ok true ->
          max_events_reached self nmax (nevt_in (fst r)) = true) /\
       (forall e, snd r = Raise e ->
          e = ZeroDivisionError /\ nprint self = 0 /\ length drawn = 1%nat) /\
       (forall j, 1 <= j < Z.of_nat (length drawn) ->
          max_events_reached self nmax (nevt_in st + j) = false) /\
       nevt_in (fst r) = nevt_in st + Z.of_nat (length drawn) /\
       selected (fst r) = selected st ++ (call_of pm <$> drawn) /\
       sink (fst r) = sink st ++ omap (answer self) (call_of pm <$> drawn) /\
       nevt_out (fst r) =
         nevt_out st +
         Z.of_nat (length (omap (answer self) (call_of pm <$> drawn)))) /\
  (let st := fst (_main_loop self fs nmax) in
   selected st `prefix_of` all_calls fs (input_files self) /\
   nevt_in st = Z.of_nat (length (selected st)) /\
   nevt_out st = Z.of_nat (length (omap (answer self) (selected st)))).
Proof.
  assert (Hfinal : reachable self nmax (fst (_main_loop self fs nmax))).
  { rewrite _main_loop_state. apply reachable_file_iter, reach_initial. }
  split; [done|]. split; [|split; [|split; [|split; [|split]]]].
  - intros pm evt_number evt_time st st'.
    destruct (event_step_state self nmax pm evt_number evt_time st)
      as (Hi & Ho & _). fold st' in Hi, Ho.
    rewrite Hi, Ho, counted_nevt_in, counted_nevt_out. done.
  - intros st H. apply reachable_counters_ok in H.
    split; [apply (ok_bounds self st H) | done].
  - done.
  - intros st n_in n_out H.
    destruct (_main_loop_returns _ _ _ _ _ _ H) as [-> ->].
    rewrite H in Hfinal. simpl in Hfinal.
    apply (ok_bounds self), (reachable_counters_ok self nmax), Hfinal.
  - intros event_numbers timestamps pm st index r. subst r.
    unfold _event_loop. fold index.
    destruct (event_iter_consumed self nmax pm index st)
      as (k & Hk & Hne & Hall & Hin & Hsel & Hsink & Hout).
    destruct (event_iter_stop_point self nmax pm index st)
      as (Htrue & Hraise & Hbelow).
    cbv zeta in *.
    assert (Hlen : length (take k index) = k) by (rewrite length_take; lia).
    exists (take k index). rewrite Hlen.
    split; [apply prefix_take|].
    split; [intros Hi; specialize (Hne Hi); intros E; rewrite E in Hlen;
            simpl in Hlen; lia|].
    split; [intros H; rewrite (Hall H); apply firstn_all|].
    split; [done|].
    split; [intros e He; destruct (Hraise e He) as (? & ? & ?);
            repeat split; try done; lia|].
    split; [intros j Hj; apply Hbelow; lia|].
    done.
  - cbv zeta. rewrite _main_loop_state.
    destruct (file_iter_calls self fs nmax (input_files self) initial)
      as (l & Hl & Hpre). simpl in Hl.
    pose proof (counters_ok_file_iter self fs nmax (input_files self) initial
                  (counters_ok_initial self)) as [_ Hi Ho Ha].
    split; [by rewrite Hl|]. split; [done|]. by rewrite <- Ha.
Qed.

(** ** What the event loop passes to [select_event] *)



(** ** Files that cannot be loaded *)

Lemma event_step_stdout self nmax pm evt_number evt_time st :
  exists l, stdout (fst (event_step self nmax pm evt_number evt_time st)) =
              stdout st ++ l /\ Forall is_progress l.
Proof.
  destruct (event_step_state self nmax pm evt_number evt_time st)
    as (_ & _ & _ & _ & [H|H]); rewrite counted_stdout in H.
  - exists []. by rewrite app_nil_r.
  - eexists [_]. split; [done|]. repeat constructor. by eexists.
Qed.

Lemma event_iter_stdout self nmax pm evts : forall st,
  exists l, stdout (fst (event_iter self nmax pm evts st)) = stdout st ++ l /\
            Forall is_progress l.
Proof.
  induction evts as [|[evt_number evt_time] rest IH]; intros st; simpl.
  - exists []. by rewrite app_nil_r.
  - destruct (event_step_stdout self nmax pm evt_number evt_time st)
      as (l & Hl & Hp).
    destruct (event_step self nmax pm evt_number evt_time st)
      as [st1 [[|]|e]]; simpl in *; eauto.
    destruct (IH st1) as (l' & Hl' & Hp').
    exists (l ++ l'). rewrite Hl', Hl, app_assoc. split; [done|].
    by apply Forall_app.
Qed.





(** ** The cap on the number of events *)

Lemma total_events_nonneg fs files : 0 <= total_events fs files.
Proof.
  induction files as [|f rest IH]; simpl; [lia|].
  unfold available. destruct (load_pmaps fs f); [|lia].
  destruct (get_event_numbers_and_timestamps_from_file_name fs f). lia.
Qed.

Lemma City_max_events_reached_neg nmax k :
  nmax < 0 -> City_max_events_reached nmax k = false.
Proof. unfold City_max_events_reached. intros. apply andb_false_iff. lia. Qed.

Lemma City_max_events_reached_lt nmax k :
  k < nmax -> City_max_events_reached nmax k = false.
Proof. unfold City_max_events_reached. intros. apply andb_false_iff. lia. Qed.

Lemma City_max_events_reached_eq nmax :
  0 <= nmax -> City_max_events_reached nmax nmax = true.
Proof. unfold City_max_events_reached. intros. apply andb_true_iff. lia. Qed.

Lemma event_iter_break_app self nmax pm evts more : forall st,
  snd (event_iter self nmax pm evts st) = Ok true ->
  event_iter self nmax pm (evts ++ more) st = event_iter self nmax pm evts st.
Proof.
  induction evts as [|[evt_number evt_time] rest IH]; intros st; simpl;
    [discriminate|].
  destruct (event_step self nmax pm evt_number evt_time st) as [st1 [[|]|e]];
    simpl; auto.
Qed.

Lemma file_iter_break self fs nmax filename rest st pm :
  load_pmaps fs filename = Ok pm ->
  snd (_event_loop self
         (fst (get_event_numbers_and_timestamps_from_file_name fs filename))
         (snd (get_event_numbers_and_timestamps_from_file_name fs filename))
         nmax pm (print (Opening filename) st)) = Ok true ->
  file_iter self fs nmax (filename :: rest) st =
    file_iter self fs nmax [filename] st.
Proof.
  intros Hl. simpl. rewrite Hl.
  destruct (get_event_numbers_and_timestamps_from_file_name fs filename)
    as [event_numbers timestamps]. simpl.
  destruct (_event_loop _ _ _ _ _ _) as [st1 [[|]|e]]; simpl; done.
Qed.

Section Cap.
Variable self : City.
Hypothesis nprint_nonzero : nprint self <> 0.
Hypothesis unbounded : forall nmax k,
  nmax < 0 -> max_events_reached self nmax k = false.
Hypothesis below : forall nmax k,
  k < nmax -> max_events_reached self nmax k = false.
Hypothesis reached : forall nmax,
  0 <= nmax -> max_events_reached self nmax nmax = true.

Lemma event_step_count nmax pm evt_number evt_time st :
  nevt_in (fst (event_step self nmax pm evt_number evt_time st)) =
    nevt_in st + 1 /\
  snd (event_step self nmax pm evt_number evt_time st) =
    Ok (max_events_reached self nmax (nevt_in st + 1)).
Proof.
  destruct (event_step_state self nmax pm evt_number evt_time st) as (Hi & _).
  rewrite counted_nevt_in in Hi. split; [done|].
  rewrite event_step_unfold. cbv zeta.
  destruct (nprint self =? 0) eqn:Hn; [lia|]. simpl.
  by rewrite counted_nevt_in.
Qed.

Lemma event_iter_below nmax pm evts : forall st,
  nmax < 0 \/ nevt_in st + Z.of_nat (length evts) < nmax ->
  snd (event_iter self nmax pm evts st) = Ok false /\
  nevt_in (fst (event_iter self nmax pm evts st)) =
    nevt_in st + Z.of_nat (length evts).
Proof.
  induction evts as [|[evt_number evt_time] rest IH]; intros st H; simpl.
  - split; [done | lia].
  - destruct (event_step_count nmax pm evt_number evt_time st) as [Hi Hr].
    destruct (event_step self nmax pm evt_number evt_time st) as [st1 r].
    simpl in *. subst r.
    assert (max_events_reached self nmax (nevt_in st + 1) = false) as ->.
    { destruct H as [H|H]; [by apply unbounded | apply below; lia]. }
    destruct (IH st1) as [Hr' Hi']; [lia|].
    split; [done | lia].
Qed.

Lemma event_iter_reaches nmax pm evts : forall st,
  nevt_in st < nmax <= nevt_in st + Z.of_nat (length evts) ->
  0 <= nmax ->
  snd (event_iter self nmax pm evts st) = Ok true /\
  nevt_in (fst (event_iter self nmax pm evts st)) = nmax.
Proof.
  induction evts as [|[evt_number evt_time] rest IH]; intros st H H0; simpl.
  - simpl in H. lia.
  - destruct (event_step_count nmax pm evt_number evt_time st) as [Hi Hr].
    destruct (event_step self nmax pm evt_number evt_time st) as [st1 r].
    simpl in *. subst r.
    destruct (decide (nevt_in st + 1 = nmax)) as [Heq|Hne].
    + rewrite Heq, reached by done. simpl. split; [done | lia].
    + rewrite below by lia. apply IH; lia.
Qed.

Lemma file_iter_count fs nmax files : forall st,
  forallb (loadable fs) files = true ->
  nmax < 0 \/ nevt_in st < nmax ->
  snd (file_iter self fs nmax files st) = Ok tt /\
  nevt_in (fst (file_iter self fs nmax files st)) =
    if nmax <? 0 then nevt_in st + total_events fs files
    else Z.min nmax (nevt_in st + total_events fs files).
Proof.
  induction files as [|filename rest IH]; intros st Hload H.
  - simpl. split; [done|]. destruct (nmax <? 0) eqn:?; lia.
  - simpl in Hload. apply andb_true_iff in Hload as [Hf Hrest].
    pose proof (total_events_nonneg fs rest) as Hnn.
    simpl. unfold loadable, available in *.
    destruct (load_pmaps fs filename) as [pm|e].
    + destruct (get_event_numbers_and_timestamps_from_file_name fs filename)
        as [event_numbers timestamps]. unfold _event_loop.
      set (evts := zip event_numbers timestamps).
      set (st0 := print (Opening filename) st).
      destruct (decide (nmax < 0 \/
                  nevt_in st0 + Z.of_nat (length evts) < nmax)) as [Hb|Hr].
      * destruct (event_iter_below nmax pm evts st0 Hb) as [Hres Hin].
        destruct (event_iter self nmax pm evts st0) as [st1 r].
        simpl in *. subst r.
        destruct (IH (print FileOK st1) Hrest) as [Hres' Hin'];
          [simpl; lia|].
        split; [done|]. rewrite Hin'. simpl. rewrite Hin.
        destruct (nmax <? 0); lia.
      * assert (0 <= nmax) by lia.
        destruct (event_iter_reaches nmax pm evts st0) as [Hres Hin];
          [simpl in *; lia | done |].
        destruct (event_iter self nmax pm evts st0) as [st1 r].
        simpl in *. subst r. simpl. split; [done|].
        destruct (nmax <? 0) eqn:?; lia.
    + rewrite Hf.
      destruct (IH (print EmptyFileSkipping (print (Opening filename) st))
                  Hrest) as [Hres Hin]; [simpl; lia|].
      split; [done|]. rewrite Hin. simpl. destruct (nmax <? 0); lia.
Qed.

Lemma _main_loop_count fs nmax :
  forallb (loadable fs) (input_files self) = true ->
  nmax < 0 \/ 1 <= nmax ->
  exists st,
    _main_loop self fs nmax = (st, Ok (nevt_in st, nevt_out st)) /\
    nevt_in st =
      if nmax <? 0 then total_events fs (input_files self)
      else Z.min nmax (total_events fs (input_files self)).
Proof.
  intros Hload H.
  destruct (file_iter_count fs nmax (input_files self) initial Hload)
    as [Hres Hin]; [simpl; lia|].
  unfold _main_loop.
  destruct (file_iter self fs nmax (input_files self) initial) as [st r].
  simpl in *. subst r. exists st. split; [done|]. by rewrite Hin.
Qed.
End Cap.

(** C4, as amended.  Let [max_events_reached] answer [false] for a negative
    cap and below the cap, and [true] at the cap; let [nprint] be non-zero
    and every input file load or be skipped.  With [nmax >= 1] the main loop
    returns with [nevt_in = min nmax total]; with [nmax < 0] it returns with
    [nevt_in = total].  Once the event loop breaks, the events after the
    break are not consumed and the files after the current one are not
    processed. *)
Theorem C4_event_cap (self : City) (fs : FileSystem) (nmax : Z) :
  nprint self <> 0 ->
  (forall n k, n < 0 -> max_events_reached self n k = false) ->
  (forall n k, k < n -> max_events_reached self n k = false) ->
  (forall n, 0 <= n -> max_events_reached self n n = true) ->
  forallb (loadable fs) (input_files self) = true ->
  let total := total_events fs (input_files self) in
  (1 <= nmax ->
     exists st,
       _main_loop self fs nmax = (st, Ok (Z.min nmax total, nevt_out st)) /\
       nevt_in st = Z.min nmax total) /\
  (nmax < 0 ->
     exists st,
       _main_loop self fs nmax = (st, Ok (total, nevt_out st)) /\
       nevt_in st = total) /\
  (forall pm evts more st,
     snd (event_iter self nmax pm evts st) = Ok true ->
     event_iter self nmax pm (evts ++ more) st =
       event_iter self nmax pm evts st) /\
  (forall filename rest st pm,
     load_pmaps fs filename = Ok pm ->
     snd (_event_loop self
            (fst (get_event_numbers_and_timestamps_from_file_name fs filename))
            (snd (get_event_numbers_and_timestamps_from_file_name fs filename))
            nmax pm (print (Opening filename) st)) = Ok true ->
     file_iter self fs nmax (filename :: rest) st =
       file_iter self fs nmax [filename] st).
Proof.
  intros Hn Hneg Hlt Heq Hload total. split; [|split; [|split]].
  - intros H.
    destruct (_main_loop_count self Hn Hneg Hlt Heq fs nmax Hload)
      as (st & Hm & Hin); [lia|].
    destruct (nmax <? 0) eqn:?; [lia|].
    exists st. by rewrite Hm, Hin.
  - intros H.
    destruct (_main_loop_count self Hn Hneg Hlt Heq fs nmax Hload)
      as (st & Hm & Hin); [lia|].
    destruct (nmax <? 0) eqn:?; [|lia].
    exists st. by rewrite Hm, Hin.
  - intros pm evts more st. apply event_iter_break_app.
  - intros filename rest st pm. apply file_iter_break.
Qed.

Lemma C4_event_cap_witness :
  nprint Sample.city <> 0 /\
  forallb (loadable Sample.fs) (input_files Sample.city) = true /\
  total_events Sample.fs (input_files Sample.city) = 6 /\
  exists st,
    _main_loop Sample.city Sample.fs 4 =
      (st, Ok (Z.min 4 (total_events Sample.fs (input_files Sample.city)),
               nevt_out st)) /\
    nevt_in st = Z.min 4 (total_events Sample.fs (input_files Sample.city)).
Proof.
  split; [discriminate|]. split; [reflexivity|]. split; [reflexivity|].
  apply (C4_event_cap Sample.city Sample.fs 4).
  - discriminate.
  - intros n k. apply City_max_events_reached_neg.
  - intros n k. apply City_max_events_reached_lt.
  - intros n. apply City_max_events_reached_eq.
  - reflexivity.
  - lia.
Defined.

(** With [nmax = 0] and one file of one event, one event is counted,
    whatever [max_events_reached] answers, while [min nmax total] is zero. *)
Lemma C4_counterexample :
  total_events Sample.fs_one ["a"] = 1 /\
  Z.min 0 (total_events Sample.fs_one ["a"]) = 0 /\
  forall (reached : Z -> Z -> bool) select,
    snd (_main_loop (mkCity ["a"] 10000 reached select) Sample.fs_one 0)
      = Ok (1, match select 1 10 ∅ ∅ ∅ with Some _ => 1 | None => 0 end).
Proof.
  split; [reflexivity|]. split; [reflexivity|]. intros reached select.
  unfold _main_loop. simpl. unfold _event_loop. simpl.
  rewrite !lookup_empty. simpl.
  destruct (select 1 10 ∅ ∅ ∅); simpl; destruct (reached _ _); reflexivity.
Qed.

(** ** The summaries *)

Lemma run_returns self fs nmax st n_in n_out :
  _main_loop self fs nmax = (st, Ok (n_in, n_out)) ->
  run self fs nmax =
    if n_in =? 0 then (st, Raise ZeroDivisionError)
    else (print (Summary n_in n_out (inject_Z n_out / inject_Z n_in)) st,
          Ok (n_in, n_out)).
Proof.
  intros H. unfold run, truediv. rewrite H. by destruct (n_in =? 0).
Qed.

Lemma run_Ok_inv self fs nmax st n_in n_out :
  run self fs nmax = (st, Ok (n_in, n_out)) ->
  0 < n_in /\ n_in = nevt_in st /\
  exists st0, _main_loop self fs nmax = (st0, Ok (n_in, n_out)).
Proof.
  unfold run, truediv.
  destruct (_main_loop self fs nmax) as [st0 [[i o]|e]] eqn:Hm; [|discriminate].
  destruct (i =? 0) eqn:Hi; [discriminate|]. intros [= <- <- <-].
  destruct (_main_loop_returns _ _ _ _ _ _ Hm) as [-> ->].
  assert (reachable self nmax st0) as Hr.
  { replace st0 with (fst (_main_loop self fs nmax)) by (by rewrite Hm).
    rewrite _main_loop_state. apply reachable_file_iter, reach_initial. }
  apply reachable_counters_ok in Hr. destruct Hr as [Hb _ _ _].
  split; [lia|]. split; [done|]. by exists st0.
Qed.

(** C6.  When the main loop returns with [nevt_in <> 0], [run] prints the
    summary with the ratio [nevt_out / nevt_in] and returns the counters;
    when it returns with [nevt_in = 0], the division is evaluated all the
    same and [run] raises [ZeroDivisionError]: no summary is printed.  So it
    is for a run over one file without PMap data. *)
Theorem C6_run_ratio_unguarded (self : City) (fs : FileSystem) (nmax : Z) :
  (forall st n_in n_out,
     _main_loop self fs nmax = (st, Ok (n_in, n_out)) -> n_in <> 0 ->
     run self fs nmax =
       (print (Summary n_in n_out (inject_Z n_out / inject_Z n_in)) st,
        Ok (n_in, n_out))) /\
  (forall st n_out,
     _main_loop self fs nmax = (st, Ok (0, n_out)) ->
     run self fs nmax = (st, Raise ZeroDivisionError)) /\
  run (Dorothea ["b"] 10000 Selector.Dorothea_default) Sample.fs (-1) =
    (print EmptyFileSkipping (print (Opening "b") initial),
     Raise ZeroDivisionError).
Proof.
  split; [|split].
  - intros st n_in n_out H Hne. rewrite (run_returns _ _ _ _ _ _ H).
    destruct (n_in =? 0) eqn:?; [lia | done].
  - intros st n_out H. by rewrite (run_returns _ _ _ _ _ _ H).
  - reflexivity.
Qed.

(** C10.  After [run] returns, the driver computes [dt / nevt_in] without a
    guard: the division raises [ZeroDivisionError] at zero.  The driver
    completes only with [nevt_in > 0]; when the main loop returns with
    [nevt_in > 0] the driver completes and prints the time per event
    [dt / nevt_in]; when the main loop returns with [nevt_in = 0] the driver
    ends with [ZeroDivisionError]. *)
Theorem C10_driver_needs_events
    (CFP : Config) (dorothea : City) (fs : FileSystem) (dt : Q) :
  let nevts := if negb (RUN_ALL CFP) then NEVENTS CFP else -1 in
  fdiv dt 0 = Raise ZeroDivisionError /\
  (forall st n_in n_out,
     run dorothea fs nevts = (st, Ok (n_in, n_out)) ->
     DOROTHEA CFP dorothea fs dt =
       match fdiv dt n_in with
       | Ok per_event => (print (TimeSummary n_in dt per_event) st, Ok tt)
       | Raise e => (st, Raise e)
       end) /\
  (forall st, DOROTHEA CFP dorothea fs dt = (st, Ok tt) -> 0 < nevt_in st) /\
  (forall st n_in n_out,
     _main_loop dorothea fs nevts = (st, Ok (n_in, n_out)) -> 0 < n_in ->
     DOROTHEA CFP dorothea fs dt =
       (print (TimeSummary n_in dt (dt / inject_Z n_in))
          (print (Summary n_in n_out (inject_Z n_out / inject_Z n_in)) st),
        Ok tt)) /\
  (forall st n_out,
     _main_loop dorothea fs nevts = (st, Ok (0, n_out)) ->
     DOROTHEA CFP dorothea fs dt = (st, Raise ZeroDivisionError)).
Proof.
  intros nevts. split; [done|]. split; [|split; [|split]].
  - intros st n_in n_out H. unfold DOROTHEA. fold nevts. by rewrite H.
  - intros st. unfold DOROTHEA. fold nevts.
    destruct (run dorothea fs nevts) as [st0 [[n_in n_out]|e]] eqn:Hr;
      [|discriminate].
    destruct (run_Ok_inv _ _ _ _ _ _ Hr) as (Hpos & -> & _).
    unfold fdiv. destruct (nevt_in st0 =? 0); [discriminate|].
    intros [= <-]. simpl. lia.
  - intros st n_in n_out H Hpos. unfold DOROTHEA. fold nevts.
    rewrite (run_returns _ _ _ _ _ _ H). unfold fdiv.
    destruct (n_in =? 0) eqn:Hz; [lia|]. by rewrite Hz.
  - intros st n_out H. unfold DOROTHEA. fold nevts.
    by rewrite (run_returns _ _ _ _ _ _ H).
Qed.

(** ** The selector *)

Module SelectorFacts.
Import Selector.

Lemma in_range_within lo x hi : in_range lo x hi = true <-> within lo x hi.
Proof.
  unfold in_range, within. rewrite andb_true_iff, Qle_bool_iff.
  destruct hi as [q|]; simpl; [by rewrite Qle_bool_iff | tauto].
Qed.

Lemma in_range_at_bound lo x q :
  (lo <= x)%Q -> (x == q)%Q -> in_range lo x (Finite q) = true.
Proof.
  intros Hlo Heq. apply in_range_within. split; [done|].
  simpl. apply Qle_lteq. by right.
Qed.

Lemma in_range_above lo x q :
  (q < x)%Q -> in_range lo x (Finite q) = false.
Proof.
  intros Hlt. apply not_true_is_false. intros H.
  apply in_range_within in H as [_ H]. simpl in H.
  by apply (Qlt_not_le q x).
Qed.

Lemma peak_passes_within c pd :
  peak_passes c pd = true <->
    within (Emin c) (energy (Ethr c) (fst pd)) (Emax c) /\
    within (Lmin c) (width (fst pd)) (Lmax c) /\
    within (Hmin c) (height (fst pd)) (Hmax c) /\
    sensors_within c pd.
Proof.
  unfold peak_passes, sensors_within.
  rewrite !andb_true_iff, !in_range_within.
  destruct (NSIPM c) as [[lo hi]|]; [rewrite in_range_within|]; tauto.
Qed.

Lemma peak_passes_false c pd :
  peak_passes c pd = false <->
    ~ (within (Emin c) (energy (Ethr c) (fst pd)) (Emax c) /\
       within (Lmin c) (width (fst pd)) (Lmax c) /\
       within (Hmin c) (height (fst pd)) (Hmax c) /\
       sensors_within c pd).
Proof. rewrite <- peak_passes_within. by destruct (peak_passes c pd). Qed.




Lemma filter_peaks_multiplicity (peak_map : gmap Z PeakData) c :
  fst (filter_peaks peak_map c) = multiplicity_ok c (size peak_map).
Proof.
  unfold filter_peaks. by destruct (multiplicity_ok c (size peak_map)).
Qed.

Lemma filter_peaks_rejected (peak_map : gmap Z PeakData) c :
  multiplicity_ok c (size peak_map) = false ->
  filter_peaks peak_map c = (false, []).
Proof. unfold filter_peaks. by intros ->. Qed.
End SelectorFacts.

(** C9.  The per-peak check accepts a peak exactly when each of its
    quantities lies in its range, both ends included.  A peak whose energy
    equals [Emax] is accepted when its other quantities are in range; a peak
    whose energy, width or height exceeds the upper bound by any positive
    amount is rejected, and so is an S2 peak whose sensor count exceeds
    [NSIPMmax]; the same holds at and above the upper bounds of the width,
    the height and the sensor count, and at the lower bounds. *)
Theorem C9_bounds_inclusive (c : Selector.PeakCriteria) (pd : Selector.PeakData) :
  let E := Selector.energy (Selector.Ethr c) (fst pd) in
  let L := Selector.width (fst pd) in
  let H := Selector.height (fst pd) in
  let N := inject_Z (Selector.n_sensors (Selector.Ethr c) (snd pd)) in
  (Selector.peak_passes c pd = true <->
     Selector.within (Selector.Emin c) E (Selector.Emax c) /\
     Selector.within (Selector.Lmin c) L (Selector.Lmax c) /\
     Selector.within (Selector.Hmin c) H (Selector.Hmax c) /\
     Selector.sensors_within c pd) /\
  (forall q, Selector.Emax c = Selector.Finite q ->
     ((E == q)%Q -> (Selector.Emin c <= E)%Q ->
      Selector.within (Selector.Lmin c) L (Selector.Lmax c) ->
      Selector.within (Selector.Hmin c) H (Selector.Hmax c) ->
      Selector.sensors_within c pd ->
      Selector.peak_passes c pd = true) /\
     ((q < E)%Q -> Selector.peak_passes c pd = false)) /\
  (forall q, Selector.Lmax c = Selector.Finite q ->
     ((L == q)%Q -> (Selector.Lmin c <= L)%Q ->
      Selector.within (Selector.Emin c) E (Selector.Emax c) ->
      Selector.within (Selector.Hmin c) H (Selector.Hmax c) ->
      Selector.sensors_within c pd ->
      Selector.peak_passes c pd = true) /\
     ((q < L)%Q -> Selector.peak_passes c pd = false)) /\
  (forall q, Selector.Hmax c = Selector.Finite q ->
     ((H == q)%Q -> (Selector.Hmin c <= H)%Q ->
      Selector.within (Selector.Emin c) E (Selector.Emax c) ->
      Selector.within (Selector.Lmin c) L (Selector.Lmax c) ->
      Selector.sensors_within c pd ->
      Selector.peak_passes c pd = true) /\
     ((q < H)%Q -> Selector.peak_passes c pd = false)) /\
  (forall lo q, Selector.NSIPM c = Some (lo, Selector.Finite q) ->
     ((N == q)%Q -> (lo <= N)%Q ->
      Selector.within (Selector.Emin c) E (Selector.Emax c) ->
      Selector.within (Selector.Lmin c) L (Selector.Lmax c) ->
      Selector.within (Selector.Hmin c) H (Selector.Hmax c) ->
      Selector.peak_passes c pd = true) /\
     ((q < N)%Q -> Selector.peak_passes c pd = false)) /\
  ((E < Selector.Emin c)%Q \/ (L < Selector.Lmin c)%Q \/
   (H < Selector.Hmin c)%Q -> Selector.peak_passes c pd = false).
Proof.
  intros E L H N.
  assert (Hat : forall lo x q, (x == q)%Q -> (lo <= x)%Q ->
            Selector.within lo x (Selector.Finite q)).
  { intros lo x q Heq Hlo. split; [done|]. simpl. apply Qle_lteq. by right. }
  assert (Hab : forall lo x q, (q < x)%Q ->
            ~ Selector.within lo x (Selector.Finite q)).
  { intros lo x q Hlt [_ Hle]. simpl in Hle. by apply (Qlt_not_le q x). }
  assert (Hbe : forall lo x hi, (x < lo)%Q -> ~ Selector.within lo x hi).
  { intros lo x hi Hlt [Hle _]. by apply (Qlt_not_le x lo). }
  split; [apply SelectorFacts.peak_passes_within|].
  split; [|split; [|split; [|split]]].
  - intros q Hq. split.
    + intros. apply SelectorFacts.peak_passes_within. fold E L H.
      rewrite Hq. auto.
    + intros Hlt. apply SelectorFacts.peak_passes_false. fold E L H.
      rewrite Hq. intros (HE & _). by apply (Hab _ _ _ Hlt HE).
  - intros q Hq. split.
    + intros. apply SelectorFacts.peak_passes_within. fold E L H.
      rewrite Hq. auto.
    + intros Hlt. apply SelectorFacts.peak_passes_false. fold E L H.
      rewrite Hq. intros (_ & HL & _). by apply (Hab _ _ _ Hlt HL).
  - intros q Hq. split.
    + intros. apply SelectorFacts.peak_passes_within. fold E L H.
      rewrite Hq. auto.
    + intros Hlt. apply SelectorFacts.peak_passes_false. fold E L H.
      rewrite Hq. intros (_ & _ & HH & _). by apply (Hab _ _ _ Hlt HH).
  - intros lo q Hq. split.
    + intros. apply SelectorFacts.peak_passes_within. fold E L H.
      unfold Selector.sensors_within. rewrite Hq. fold N. auto.
    + intros Hlt. apply SelectorFacts.peak_passes_false. fold E L H.
      unfold Selector.sensors_within. rewrite Hq. fold N.
      intros (_ & _ & _ & HN). by apply (Hab _ _ _ Hlt HN).
  - intros Hlow. apply SelectorFacts.peak_passes_false. fold E L H.
    intros (HE & HL & HH & _).
    destruct Hlow as [Hlt|[Hlt|Hlt]]; eapply Hbe; eauto.
Qed.

Module SelectorRun.
Import Selector SelectorFacts.

Lemma size_S1_data (S1 : PeakMap) : size (S1_data S1) = size S1.
Proof. apply map_size_fmap. Qed.

Lemma size_S2_data (S2 : PeakMap) (Si : SiMap) :
  size (S2_data S2 Si) = size S2.
Proof.
  rewrite <- !size_dom. f_equal. apply set_eq. intros id.
  rewrite !elem_of_dom. unfold S2_data. rewrite map_lookup_imap.
  destruct (S2 !! id); simpl; split; intros [? ?]; eauto; done.
Qed.

(** What an accepted event says about the stages of [select_event]. *)
Lemma select_event_Some self evt_number evt_time S1 S2 Si ev :
  select_event self evt_number evt_time S1 S2 Si = Some ev ->
  multiplicity_ok (S1_criteria self) (size S1) = true /\
  multiplicity_ok (S2_criteria self) (size S2) = true /\
  exists s1 kept drifts,
    reduce S1 S2 (S2_cap self)
      (snd (filter_peaks (S1_data S1) (S1_criteria self)))
      (snd (filter_peaks (S2_data S2 Si) (S2_criteria self)))
      Si (drift_v self) = Some (s1, kept, drifts) /\
    ev = mkAcceptedEvent evt_number evt_time s1 kept drifts.
Proof.
  unfold select_event.
  pose proof (filter_peaks_multiplicity (S1_data S1) (S1_criteria self)) as H1.
  pose proof (filter_peaks_multiplicity (S2_data S2 Si) (S2_criteria self))
    as H2.
  rewrite size_S1_data in H1. rewrite size_S2_data in H2.
  destruct (filter_peaks (S1_data S1) _) as [ok1 l1].
  destruct (filter_peaks (S2_data S2 Si) _) as [ok2 l2].
  simpl in *. subst ok1 ok2.
  destruct (multiplicity_ok (S1_criteria self) (size S1));
    destruct (multiplicity_ok (S2_criteria self) (size S2));
    simpl; try discriminate.
  destruct (reduce _ _ _ _ _ _ _) as [[[s1 kept] drifts]|]; [|discriminate].
  intros [= <-]. repeat split. by exists s1, kept, drifts.
Qed.

Lemma select_event_rejects self evt_number evt_time S1 S2 Si :
  multiplicity_ok (S1_criteria self) (size S1) = false \/
  multiplicity_ok (S2_criteria self) (size S2) = false ->
  select_event self evt_number evt_time S1 S2 Si = None.
Proof.
  intros H.
  destruct (select_event self evt_number evt_time S1 S2 Si) as [ev|] eqn:He;
    [|done].
  apply select_event_Some in He as (H1 & H2 & _).
  destruct H; congruence.
Qed.

(** What a selection says about the arguments of [reduce]. *)
Lemma reduce_Some S1 S2 N l1 l2 Si dv s1 kept drifts :
  reduce S1 S2 N l1 l2 Si dv = Some (s1, kept, drifts) ->
  l1 = [s1] /\ l2 <> [] /\ kept = cap N l2 /\
  exists p1, S1 !! s1 = Some p1 /\
    Forall2 (fun id d => exists p2, S2 !! id = Some p2 /\
                                    d = drift_of dv p1 p2) kept drifts.
Proof.
  unfold reduce. destruct l1 as [|s [|? ?]]; try discriminate.
  destruct l2 as [|x l2]; [discriminate|].
  destruct (S1 !! s) as [p1|] eqn:Hs; [|discriminate]. simpl.
  destruct (mapM _ _) as [ds|] eqn:Hm; [|discriminate]. simpl.
  intros [= <- <- <-]. repeat split; [done|].
  exists p1. split; [done|].
  apply mapM_Some_1 in Hm. eapply Forall2_impl; [exact Hm|].
  intros id d Hd. simpl in Hd.
  destruct (S2 !! id) as [p2|]; [|discriminate].
  injection Hd as <-. by exists p2.
Qed.


(** Below the cap nothing is dropped. *)
Lemma cap_all N (l : list Z) :
  StronglySorted Z.le l -> Z.of_nat (length l) <= N -> cap N l = l.
Proof.
  intros Hs HN. unfold cap.
  assert (merge_sort Z.le l = l) as ->.
  { apply (StronglySorted_unique Z.le); [|done|].
    - apply (StronglySorted_merge_sort Z.le).
    - apply merge_sort_Permutation. }
  apply take_ge. lia.
Qed.
End SelectorRun.

(** C1.  With S1 multiplicity bounds [1, 1], an event whose S1 map does not
    hold exactly one peak is rejected by [select_event], whatever its S2
    content; the constructor of [Dorothea] fixes these bounds for every
    choice of its arguments; and for such an event the event loop neither
    counts nor writes an output record. *)
Theorem C1_S1_multiplicity_rejects
    (evt_number evt_time : Z) (S1 S2 : PeakMap) (Si : SiMap) :
  size S1 <> 1%nat ->
  (forall self,
     Selector.Nmin (Selector.S1_criteria self) = 1 ->
     Selector.Nmax (Selector.S1_criteria self) = 1 ->
     Selector.select_event self evt_number evt_time S1 S2 Si = None) /\
  (forall dv e1 E1 l1 L1 h1 H1 t1 n2 e2 E2 l2 L2 h2 H2 s2 S2max t2,
     let self := Selector.Dorothea_init dv e1 E1 l1 L1 h1 H1 t1
                   n2 e2 E2 l2 L2 h2 H2 s2 S2max t2 in
     Selector.Nmin (Selector.S1_criteria self) = 1 /\
     Selector.Nmax (Selector.S1_criteria self) = 1 /\
     Selector.select_event self evt_number evt_time S1 S2 Si = None /\
     forall files_in nprint nmax pm st,
       default ∅ (S1s pm !! evt_number) = S1 ->
       default ∅ (S2s pm !! evt_number) = S2 ->
       default ∅ (S2Sis pm !! evt_number) = Si ->
       let st' := fst (event_step (Dorothea files_in nprint self) nmax pm
                         evt_number evt_time st) in
       nevt_out st' = nevt_out st /\ sink st' = sink st).
Proof.
  intros Hsize.
  assert (Hrej : forall self,
            Selector.Nmin (Selector.S1_criteria self) = 1 ->
            Selector.Nmax (Selector.S1_criteria self) = 1 ->
            Selector.select_event self evt_number evt_time S1 S2 Si = None).
  { intros self Hmin Hmax. apply SelectorRun.select_event_rejects. left.
    unfold Selector.multiplicity_ok. rewrite Hmin, Hmax. simpl.
    apply andb_false_iff. lia. }
  split; [exact Hrej|].
  intros dv e1 E1 l1 L1 h1 H1 t1 n2 e2 E2 l2 L2 h2 H2 s2 S2max t2 self.
  split; [done|]. split; [done|]. split; [by apply Hrej|].
  intros files_in nprint nmax pm st HS1 HS2 HSi st'.
  destruct (event_step_state (Dorothea files_in nprint self) nmax pm
              evt_number evt_time st) as (_ & Ho & Hs & _).
  fold st' in Ho, Hs. rewrite Ho, Hs, counted_nevt_out, counted_sink.
  unfold answer, call_of. simpl. rewrite HS1, HS2, HSi.
  rewrite (Hrej self) by done. simpl. split; [lia | by rewrite app_nil_r].
Qed.

Lemma C1_S1_multiplicity_rejects_witness :
  size (∅ : PeakMap) <> 1%nat /\
  Selector.select_event (Sample.criteria 1) 1 1000 ∅ Sample.S2 Sample.Si = None.
Proof.
  split; [vm_compute; discriminate|].
  apply (C1_S1_multiplicity_rejects 1 1000 ∅ Sample.S2 Sample.Si);
    try reflexivity.
  vm_compute. discriminate.
Defined.

(** C3.  In an accepted event the chosen S1 is the single S1 peak that
    passed, there is one drift value per kept S2 peak, and the drift value
    of a kept S2 peak is [(S2_peak.start_time - S1_peak.time) * drift_v]. *)
Theorem C3_drift_per_kept_S2
    (self : Selector.S12SelectorCity) (evt_number evt_time : Z)
    (S1 S2 : PeakMap) (Si : SiMap) (ev : AcceptedEvent) :
  Selector.select_event self evt_number evt_time S1 S2 Si = Some ev ->
  snd (Selector.filter_peaks (Selector.S1_data S1) (Selector.S1_criteria self))
    = [s1_id ev] /\
  length (drift ev) = length (s2_ids ev) /\
  exists S1_peak,
    S1 !! s1_id ev = Some S1_peak /\
    Forall2 (fun id d =>
               exists S2_peak,
                 S2 !! id = Some S2_peak /\
                 d = ((start_time S2_peak - time S1_peak)
                      * Selector.drift_v self)%Q)
            (s2_ids ev) (drift ev).
Proof.
  intros Hev.
  apply SelectorRun.select_event_Some in Hev
    as (_ & _ & s1 & kept & drifts & Hred & ->).
  apply SelectorRun.reduce_Some in Hred as (Hl1 & _ & _ & p1 & Hp1 & Hall).
  simpl. split; [done|]. split; [symmetry; by eapply Forall2_length|].
  by exists p1.
Qed.

Lemma C3_drift_per_kept_S2_witness :
  Selector.select_event (Sample.criteria 2) 1 1000
    Sample.S1 Sample.S2_two Sample.Si_two
    = Some (mkAcceptedEvent 1 1000 0 [0; 1] [390; 590]%Q) /\
  length [390; 590]%Q = length [0; 1] /\
  exists S1_peak,
    Sample.S1 !! 0 = Some S1_peak /\
    Forall2 (fun id d =>
               exists S2_peak,
                 Sample.S2_two !! id = Some S2_peak /\
                 d = ((start_time S2_peak - time S1_peak) * 1)%Q)
            [0; 1] [390; 590]%Q.
Proof.
  split; [vm_compute; reflexivity|].
  apply (C3_drift_per_kept_S2 (Sample.criteria 2) 1 1000
           Sample.S1 Sample.S2_two Sample.Si_two
           (mkAcceptedEvent 1 1000 0 [0; 1] [390; 590]%Q)).
  vm_compute. reflexivity.
Defined.

Module SelectorCap.
Import Selector SelectorFacts SelectorRun.










End SelectorCap.



(** ** The examples of the specification *)

(** One event with one S1 and one S2 within the bounds: one event in, one
    out, one drift value [S2.start_time - S1.time] at unit drift velocity. *)
Example end_to_end_accepts :
  let city := Dorothea ["a"] 10000 (Sample.criteria 1) in
  let fs := mkFileSystem
              (fun _ => Ok (mkPMaps {[ 1 := Sample.S1 ]} {[ 1 := Sample.S2 ]}
                                    {[ 1 := Sample.Si ]}))
              (fun _ => ([1], [1000])) in
  snd (run city fs (-1)) = Ok (1, 1) /\
  sink (fst (run city fs (-1))) = [mkAcceptedEvent 1 1000 0 [0] [390]%Q].
Proof. split; vm_compute; reflexivity. Qed.

(** The same event with [S2_NSIPMmin = 5]: three sensors are too few. *)
Example end_to_end_rejects :
  let sel := Selector.Dorothea_init 1 0 (Selector.Finite 100) 0
               Selector.Infinity 0 Selector.Infinity 0
               1 0 (Selector.Finite 100) 0 Selector.Infinity 0
               Selector.Infinity 5 (Selector.Finite 10) 0 in
  Selector.n_sensors 0 Sample.hits = 3 /\
  Selector.select_event sel 1 1000 Sample.S1 Sample.S2 Sample.Si = None.
Proof. split; vm_compute; reflexivity. Qed.

(** An S2 peak of energy 50 passes with [Emax = 50] and fails with
    [Emax = 49]. *)
Example energy_at_Emax :
  let c E := Selector.mkPeakCriteria 1 1 0 (Selector.Finite E) 0
               Selector.Infinity 0 Selector.Infinity 0 None in
  Selector.energy 0 Sample.s2_peak = 50%Q /\
  Selector.peak_passes (c 50%Q) (Sample.s2_peak, ∅) = true /\
  Selector.peak_passes (c 49%Q) (Sample.s2_peak, ∅) = false.
Proof. repeat split; vm_compute; reflexivity. Qed.

(** * Further properties of the loops *)

(** ** What one call of the event loop consumes *)

(** X1.  One call of [_event_loop] consumes at least one event when both
    index lists are non-empty, also when the cap is zero or already passed,
    and at most as many events as the shorter of the two lists holds;
    [nevt_in] grows by the number of events consumed. *)
Theorem X1_event_loop_consumes
    (self : City) (event_numbers timestamps : list Z) (nmax : Z)
    (pm : PMaps) (st : State) :
  let st' := fst (_event_loop self event_numbers timestamps nmax pm st) in
  nevt_in st <= nevt_in st' /\
  nevt_in st' - nevt_in st
    <= Z.of_nat (length event_numbers `min` length timestamps) /\
  (event_numbers <> [] -> timestamps <> [] -> nevt_in st + 1 <= nevt_in st') /\
  (snd (_event_loop self event_numbers timestamps nmax pm st) = Ok false ->
   nevt_in st' - nevt_in st
     = Z.of_nat (length event_numbers `min` length timestamps)).
Proof.
  intros st'. unfold _event_loop in *.
  destruct (event_iter_consumed self nmax pm (zip event_numbers timestamps) st)
    as (k & Hk & Hne & Hall & Hin & _).
  fold st' in Hin. rewrite length_zip_with in Hk, Hall.
  split; [lia|]. split; [lia|]. split.
  - intros He Ht. assert (1 <= k)%nat; [|lia]. apply Hne.
    destruct event_numbers, timestamps; done.
  - intros H. rewrite (Hall H) in Hin. lia.
Qed.

(** X2.  One call of [_event_loop], from any incoming counters and whether
    it returns or raises, leaves the records already written and the lines
    already printed in place; the records it appends are the accepted answers
    of [select_event] to the events it consumed, in index order, and
    [nevt_out] grows by the number of records appended. *)
Theorem X2_event_loop_appends
    (self : City) (event_numbers timestamps : list Z) (nmax : Z)
    (pm : PMaps) (st : State) :
  let st' := fst (_event_loop self event_numbers timestamps nmax pm st) in
  exists consumed,
    consumed `prefix_of` zip event_numbers timestamps /\
    sink st' = sink st ++ omap (answer self) (call_of pm <$> consumed) /\
    nevt_out st' - nevt_out st
      = Z.of_nat (length (sink st')) - Z.of_nat (length (sink st)) /\
    nevt_in st' - nevt_in st = Z.of_nat (length consumed) /\
    stdout st `prefix_of` stdout st'.
Proof.
  intros st'. unfold _event_loop in *.
  destruct (event_iter_consumed self nmax pm (zip event_numbers timestamps) st)
    as (k & Hk & _ & _ & Hin & _ & Hsink & Hout).
  destruct (event_iter_stdout self nmax pm (zip event_numbers timestamps) st)
    as (l & Hl & _).
  fold st' in Hin, Hsink, Hout, Hl.
  exists (take k (zip event_numbers timestamps)).
  split; [apply prefix_take|]. split; [done|].
  split; [rewrite Hsink, Hout, length_app; lia|].
  split; [rewrite length_take; lia|]. rewrite Hl. by apply prefix_app_r.
Qed.

(** X3.  Index entries beyond the length of the shorter list are ignored:
    the event loop behaves as on the two lists cut to the same length. *)
Theorem X3_event_loop_ignores_surplus
    (self : City) (event_numbers timestamps : list Z) (nmax : Z)
    (pm : PMaps) (st : State) :
  let n := (length event_numbers `min` length timestamps)%nat in
  _event_loop self event_numbers timestamps nmax pm st =
    _event_loop self (take n event_numbers) (take n timestamps) nmax pm st.
Proof.
  intros n. unfold _event_loop. f_equal. subst n.
  revert timestamps. induction event_numbers as [|e es IH];
    intros [|t ts]; simpl; try done.
  by rewrite <- IH.
Qed.

Lemma event_iter_app self nmax pm evts more : forall st,
  event_iter self nmax pm (evts ++ more) st =
    match event_iter self nmax pm evts st with
    | (st1, Ok false) => event_iter self nmax pm more st1
    | r => r
    end.
Proof.
  induction evts as [|[evt_number evt_time] rest IH]; intros st; simpl; [done|].
  destruct (event_step self nmax pm evt_number evt_time st) as [st1 [[|]|e]];
    simpl; auto.
Qed.

(** X4.  Reading an index in two chunks is the same as reading it whole:
    the second chunk continues from the state the first one ends in, unless
    the first one breaks or raises, which ends the loop. *)
Theorem X4_event_loop_chunks
    (self : City) (numbers1 numbers2 times1 times2 : list Z) (nmax : Z)
    (pm : PMaps) (st : State) :
  length numbers1 = length times1 ->
  _event_loop self (numbers1 ++ numbers2) (times1 ++ times2) nmax pm st =
    match _event_loop self numbers1 times1 nmax pm st with
    | (st1, Ok false) => _event_loop self numbers2 times2 nmax pm st1
    | r => r
    end.
Proof.
  intros Hlen. unfold _event_loop.
  rewrite (zip_with_app pair numbers1 numbers2 times1 times2 Hlen).
  apply event_iter_app.
Qed.

Lemma X4_event_loop_chunks_witness :
  length [1] = length [10] /\
  _event_loop Sample.city ([1] ++ [2; 3]) ([10] ++ [20; 30]) (-1)
      (mkPMaps ∅ ∅ ∅) initial =
    match _event_loop Sample.city [1] [10] (-1) (mkPMaps ∅ ∅ ∅) initial with
    | (st1, Ok false) =>
        _event_loop Sample.city [2; 3] [20; 30] (-1) (mkPMaps ∅ ∅ ∅) st1
    | r => r
    end.
Proof.
  split; [reflexivity|].
  apply (X4_event_loop_chunks Sample.city [1] [2; 3] [10] [20; 30]).
  reflexivity.
Defined.

(** X5.  With [nprint = 0] the event loop raises [ZeroDivisionError] at the
    first event of a non-empty index, after that event has been counted and,
    when [select_event] accepted it, written: the record stays in the sink. *)
Theorem X5_nprint_zero_raises
    (self : City) (evt_number evt_time : Z) (event_numbers timestamps : list Z)
    (nmax : Z) (pm : PMaps) (st : State) :
  nprint self = 0 ->
  let r := _event_loop self (evt_number :: event_numbers)
             (evt_time :: timestamps) nmax pm st in
  let c := call_of pm (evt_number, evt_time) in
  snd r = Raise ZeroDivisionError /\
  nevt_in (fst r) = nevt_in st + 1 /\
  selected (fst r) = selected st ++ [c] /\
  sink (fst r) = sink st ++ option_list (answer self c) /\
  stdout (fst r) = stdout st.
Proof.
  intros Hn r c. subst r. unfold _event_loop. simpl.
  rewrite event_step_unfold. cbv zeta. rewrite Hn. simpl. fold c.
  by rewrite counted_nevt_in, counted_selected, counted_sink, counted_stdout.
Qed.

Lemma X5_nprint_zero_raises_witness :
  nprint (Dorothea ["a"] 0 (Sample.criteria 1)) = 0 /\
  snd (_event_loop (Dorothea ["a"] 0 (Sample.criteria 1)) [1; 2] [10; 20] (-1)
         (mkPMaps {[ 1 := Sample.S1 ]} {[ 1 := Sample.S2 ]}
                  {[ 1 := Sample.Si ]}) initial)
    = Raise ZeroDivisionError.
Proof.
  split; [reflexivity|].
  apply (X5_nprint_zero_raises (Dorothea ["a"] 0 (Sample.criteria 1))
           1 10 [2] [20] (-1)). reflexivity.
Defined.

(** ** The progress lines *)

Lemma progress_lines_nil nprint first : progress_lines nprint first 0 = [].
Proof. unfold progress_lines. by rewrite seqZ_nil. Qed.

Lemma progress_lines_one nprint first :
  progress_lines nprint first 1 =
    if first mod nprint =? 0 then [EvtsAnalyzed first] else [].
Proof.
  unfold progress_lines. rewrite seqZ_cons by lia.
  rewrite seqZ_nil by lia. simpl. by destruct (_ =? 0).
Qed.

Lemma progress_lines_app nprint first a b :
  0 <= a -> 0 <= b ->
  progress_lines nprint first (a + b) =
    progress_lines nprint first a ++ progress_lines nprint (first + a) b.
Proof.
  intros Ha Hb. unfold progress_lines.
  by rewrite seqZ_app, List.filter_app, fmap_app.
Qed.

Lemma event_iter_progress self nmax pm evts :
  nprint self <> 0 -> forall st,
  let st' := fst (event_iter self nmax pm evts st) in
  stdout st' =
    stdout st ++
    progress_lines (nprint self) (nevt_in st + 1) (nevt_in st' - nevt_in st).
Proof.
  intros Hn. induction evts as [|[evt_number evt_time] rest IH]; intros st.
  - simpl. by rewrite Z.sub_diag, progress_lines_nil, app_nil_r.
  - assert (Hstep : let st1 := fst (event_step self nmax pm evt_number evt_time st) in
              nevt_in st1 = nevt_in st + 1 /\
              stdout st1 = stdout st ++
                progress_lines (nprint self) (nevt_in st + 1) 1).
    { rewrite event_step_unfold. cbv zeta.
      destruct (nprint self =? 0) eqn:Hz; [lia|]. cbn [fst].
      rewrite progress_lines_one, counted_nevt_in.
      destruct ((nevt_in st + 1) mod nprint self =? 0);
        cbn [nevt_in stdout print];
        by rewrite ?counted_nevt_in, ?counted_stdout, ?app_nil_r. }
    cbv zeta in Hstep. destruct Hstep as [Hi Hout].
    simpl event_iter.
    destruct (event_step self nmax pm evt_number evt_time st)
      as [st1 [[|]|e]]; cbn [fst snd] in *.
    + rewrite Hi, Hout. by replace (nevt_in st + 1 - nevt_in st) with 1 by lia.
    + destruct (event_iter_consumed self nmax pm rest st1)
        as (k & _ & _ & _ & Hk & _). cbv zeta in Hk.
      rewrite (IH st1), Hout, Hi, <- app_assoc. f_equal.
      replace (nevt_in (event_iter self nmax pm rest st1).1 - nevt_in st)
        with (1 + (nevt_in (event_iter self nmax pm rest st1).1
                   - (nevt_in st + 1))) by lia.
      rewrite progress_lines_app by lia. done.
    + rewrite Hi, Hout. by replace (nevt_in st + 1 - nevt_in st) with 1 by lia.
Qed.

(** X6.  With a non-zero [nprint], the lines one call of [_event_loop]
    prints are the progress lines of the values [nevt_in] takes during the
    call that are multiples of [nprint], in increasing order, and nothing
    else. *)
Theorem X6_event_loop_progress_lines
    (self : City) (event_numbers timestamps : list Z) (nmax : Z)
    (pm : PMaps) (st : State) :
  nprint self <> 0 ->
  let st' := fst (_event_loop self event_numbers timestamps nmax pm st) in
  stdout st' =
    stdout st ++
    (EvtsAnalyzed <$>
       List.filter (fun n => n mod nprint self =? 0)
                   (seqZ (nevt_in st + 1) (nevt_in st' - nevt_in st))).
Proof. intros Hn. by apply event_iter_progress. Qed.

Lemma X6_event_loop_progress_lines_witness :
  nprint Sample.city <> 0 /\
  stdout (fst (_event_loop Sample.city [1; 2; 3; 4; 5] [10; 20; 30; 40; 50]
                 (-1) (mkPMaps ∅ ∅ ∅) initial))
    = [EvtsAnalyzed 2; EvtsAnalyzed 4].
Proof.
  split; [discriminate|].
  rewrite (X6_event_loop_progress_lines Sample.city [1; 2; 3; 4; 5]
             [10; 20; 30; 40; 50] (-1) (mkPMaps ∅ ∅ ∅) initial);
    [vm_compute; reflexivity | discriminate].
Defined.

(** ** The log of the main loop *)

Lemma openings_progress l : Forall is_progress l -> openings l = [].
Proof.
  induction 1 as [|m l [n ->] _ IH]; [done|]. unfold openings in *. simpl.
  exact IH.
Qed.

Lemma progress_not_max l : Forall is_progress l -> MaxEventsReached ∉ l.
Proof.
  intros H Hin. rewrite Forall_forall in H.
  destruct (H _ Hin) as [n Hn]. discriminate.
Qed.

#[local] Set Warnings "-clear-no-such-hyp".

Lemma file_iter_log self fs nmax files : forall st,
  exists l,
    stdout (fst (file_iter self fs nmax files st)) = stdout st ++ l /\
    openings l `prefix_of` files /\
    (snd (file_iter self fs nmax files st) = Ok tt ->
     MaxEventsReached ∉ l -> openings l = files) /\
    (MaxEventsReached ∈ l ->
     exists l0, l = l0 ++ [MaxEventsReached] /\ (MaxEventsReached ∉ l0) /\
                snd (file_iter self fs nmax files st) = Ok tt).
Proof.
  induction files as [|filename rest IH]; intros st.
  - exists []. simpl. rewrite app_nil_r. repeat split; try done.
    by intros ?%elem_of_nil.
  - simpl. destruct (load_pmaps fs filename) as [pm|e].
    + destruct (get_event_numbers_and_timestamps_from_file_name fs filename)
        as [event_numbers timestamps]. unfold _event_loop.
      destruct (event_iter_stdout self nmax pm (zip event_numbers timestamps)
                  (print (Opening filename) st)) as (lp & Hlp & Hp).
      pose proof (openings_progress lp Hp) as Hop.
      pose proof (progress_not_max lp Hp) as Hnm.
      cbn [stdout print] in Hlp. rewrite <- app_assoc in Hlp.
      destruct (event_iter self nmax pm (zip event_numbers timestamps) _)
        as [st1 [[|]|e]]; cbn [fst snd] in *.
      * exists ([Opening filename] ++ lp ++ [MaxEventsReached]).
        cbn [stdout print]. rewrite Hlp, <- !app_assoc.
        split; [done|]. unfold openings in *. rewrite !omap_app, Hop. simpl.
        split; [apply prefix_cons, prefix_nil|].
        split; [intros _ Hno; exfalso; apply Hno; set_solver|].
        intros _. exists ([Opening filename] ++ lp).
        rewrite <- app_assoc. split; [done|]. split; [set_solver|done].
      * destruct (IH (print FileOK st1)) as (l' & Hl' & Hpre & Hall & Hmax).
        cbn [stdout print] in Hl'.
        exists ([Opening filename] ++ lp ++ [FileOK] ++ l').
        rewrite Hl', Hlp, <- !app_assoc. split; [done|].
        unfold openings in *. rewrite !omap_app, Hop. simpl.
        split; [by apply prefix_cons|].
        split.
        -- intros Hr Hno. f_equal. apply Hall; [done|]. set_solver.
        -- intros Hin. destruct Hmax as (l0 & -> & Hno & Hr); [set_solver|].
           exists ([Opening filename] ++ lp ++ [FileOK] ++ l0).
           rewrite <- !app_assoc. split; [done|]. split; [set_solver|done].
      * exists ([Opening filename] ++ lp). rewrite Hlp. split; [done|].
        unfold openings in *. rewrite !omap_app, Hop. simpl.
        split; [apply prefix_cons, prefix_nil|].
        split; [done|]. intros Hin. exfalso. set_solver.
    + destruct (is_empty_file_error e); cbn [fst snd].
      * destruct (IH (print EmptyFileSkipping (print (Opening filename) st)))
          as (l' & Hl' & Hpre & Hall & Hmax).
        cbn [stdout print] in Hl'.
        exists ([Opening filename] ++ [EmptyFileSkipping] ++ l').
        rewrite Hl', <- !app_assoc. split; [done|].
        unfold openings in *. rewrite !omap_app. simpl.
        split; [by apply prefix_cons|].
        split.
        -- intros Hr Hno. f_equal. apply Hall; [done|]. set_solver.
        -- intros Hin. destruct Hmax as (l0 & -> & Hno & Hr); [set_solver|].
           exists ([Opening filename] ++ [EmptyFileSkipping] ++ l0).
           rewrite <- !app_assoc. split; [done|]. split; [set_solver|done].
      * exists [Opening filename]. cbn [stdout print]. split; [done|].
        split; [apply prefix_cons, prefix_nil|].
        split; [done|]. intros Hin. exfalso. set_solver.
Qed.

Lemma _main_loop_outcome self fs nmax :
  (snd (file_iter self fs nmax (input_files self) initial) = Ok tt <->
   exists r, snd (_main_loop self fs nmax) = Ok r).
Proof.
  unfold _main_loop.
  destruct (file_iter self fs nmax (input_files self) initial)
    as [st [[]|e]]; simpl; split; try done; [by eexists | by intros [? ?]].
Qed.

(** X7.  The files named in the "Opening" lines of the main loop are a
    prefix of the input file list, in order; "Max events reached" is printed
    at most once, as the last line, and only when the main loop returns; and
    when the main loop returns without having printed it, every input file
    was opened. *)
Theorem X7_main_loop_log (self : City) (fs : FileSystem) (nmax : Z) :
  let log := stdout (fst (_main_loop self fs nmax)) in
  openings log `prefix_of` input_files self /\
  (MaxEventsReached ∈ log ->
     exists log0, log = log0 ++ [MaxEventsReached] /\
                  (MaxEventsReached ∉ log0) /\
                  exists r, snd (_main_loop self fs nmax) = Ok r) /\
  ((exists r, snd (_main_loop self fs nmax) = Ok r) ->
   MaxEventsReached ∉ log -> openings log = input_files self).
Proof.
  intros log. subst log. rewrite _main_loop_state.
  destruct (file_iter_log self fs nmax (input_files self) initial)
    as (l & Hl & Hpre & Hall & Hmax). simpl in Hl. rewrite Hl.
  split; [done|]. split.
  - intros Hin. destruct (Hmax Hin) as (l0 & -> & Hno & Hr).
    exists l0. split; [done|]. split; [done|]. by apply _main_loop_outcome.
  - intros Hr Hno. apply Hall; [|done]. by apply _main_loop_outcome.
Qed.

(** ** The order of the calls and of the records *)

(** X8.  The calls of [select_event] made by the main loop are a prefix of
    the events of the input files taken in file order and, within a file, in
    index order, each with its timestamp; the records in the sink are the
    accepted answers to those calls, in the same order. *)
Theorem X8_main_loop_order (self : City) (fs : FileSystem) (nmax : Z) :
  let st := fst (_main_loop self fs nmax) in
  selected st `prefix_of` all_calls fs (input_files self) /\
  sink st = omap (answer self) (selected st).
Proof.
  intros st. subst st. split.
  - rewrite _main_loop_state.
    destruct (file_iter_calls self fs nmax (input_files self) initial)
      as (l & Hl & Hpre). simpl in Hl. by rewrite Hl.
  - apply (ok_accepted self). rewrite _main_loop_state.
    apply counters_ok_file_iter, counters_ok_initial.
Qed.

(** ** A run the cap never stops *)

Lemma event_iter_never_reached self nmax pm evts :
  nprint self <> 0 ->
  (forall k, max_events_reached self nmax k = false) ->
  forall st, snd (event_iter self nmax pm evts st) = Ok false.
Proof.
  intros Hn Hnever.
  induction evts as [|[evt_number evt_time] rest IH]; intros st; simpl; [done|].
  rewrite event_step_unfold. cbv zeta.
  destruct (nprint self =? 0) eqn:Hz; [lia|]. rewrite Hnever. apply IH.
Qed.

Lemma file_iter_all self fs nmax files :
  nprint self <> 0 ->
  (forall k, max_events_reached self nmax k = false) ->
  forallb (loadable fs) files = true ->
  forall st,
    snd (file_iter self fs nmax files st) = Ok tt /\
    selected (fst (file_iter self fs nmax files st)) =
      selected st ++ all_calls fs files /\
    exists l, stdout (fst (file_iter self fs nmax files st)) = stdout st ++ l /\
              (MaxEventsReached ∉ l).
Proof.
  intros Hn Hnever. induction files as [|filename rest IH]; intros Hload st.
  - simpl. rewrite app_nil_r. repeat split; try done.
    exists []. rewrite app_nil_r. split; [done|]. by intros ?%elem_of_nil.
  - simpl in Hload. apply andb_true_iff in Hload as [Hf Hrest].
    simpl. unfold all_calls. rewrite fmap_cons. simpl. fold (all_calls fs rest).
    unfold file_calls, loadable in *.
    destruct (load_pmaps fs filename) as [pm|e].
    + destruct (get_event_numbers_and_timestamps_from_file_name fs filename)
        as [event_numbers timestamps]. unfold _event_loop.
      pose proof (event_iter_never_reached self nmax pm
                    (zip event_numbers timestamps) Hn Hnever
                    (print (Opening filename) st)) as Hres.
      destruct (event_iter_consumed self nmax pm (zip event_numbers timestamps)
                  (print (Opening filename) st))
        as (k & _ & _ & Hall & _ & Hsel & _). cbv zeta in Hsel.
      cbn [selected print] in Hsel.
      destruct (event_iter_stdout self nmax pm (zip event_numbers timestamps)
                  (print (Opening filename) st)) as (lp & Hlp & Hp).
      apply progress_not_max in Hp. cbn [stdout print] in Hlp.
      destruct (event_iter self nmax pm (zip event_numbers timestamps) _)
        as [st1 r]; cbn [fst snd] in *. subst r.
      rewrite (Hall eq_refl), firstn_all in Hsel.
      destruct (IH Hrest (print FileOK st1)) as (Hr & Hs & l & Hl & Hno).
      cbn [selected stdout print] in Hs, Hl. split; [done|].
      split; [by rewrite Hs, Hsel, <- app_assoc|].
      exists ([Opening filename] ++ lp ++ [FileOK] ++ l).
      rewrite Hl, Hlp, <- !app_assoc. split; [done|]. set_solver.
    + rewrite Hf.
      destruct (IH Hrest (print EmptyFileSkipping (print (Opening filename) st)))
        as (Hr & Hs & l & Hl & Hno). cbn [selected stdout print] in Hs, Hl.
      split; [done|]. split; [done|].
      exists ([Opening filename] ++ [EmptyFileSkipping] ++ l).
      rewrite Hl, <- !app_assoc. split; [done|]. set_solver.
Qed.

(** X9.  When [max_events_reached] never holds for the given [nmax],
    [nprint] is non-zero and every input file loads or is skipped, the main
    loop returns, having passed every event of every file to [select_event]
    exactly once, in file order and index order; the sink holds exactly the
    accepted ones, the pair returned counts the two, and "Max events
    reached" is not printed. *)
Theorem X9_main_loop_complete_pass (self : City) (fs : FileSystem) (nmax : Z) :
  nprint self <> 0 ->
  (forall k, max_events_reached self nmax k = false) ->
  forallb (loadable fs) (input_files self) = true ->
  let calls := all_calls fs (input_files self) in
  exists st,
    _main_loop self fs nmax =
      (st, Ok (Z.of_nat (length calls),
               Z.of_nat (length (omap (answer self) calls)))) /\
    selected st = calls /\
    sink st = omap (answer self) calls /\
    (MaxEventsReached ∉ stdout st).
Proof.
  intros Hn Hnever Hload calls.
  destruct (file_iter_all self fs nmax (input_files self) Hn Hnever Hload initial)
    as (Hres & Hsel & l & Hl & Hno). simpl in Hsel, Hl. fold calls in Hsel.
  pose proof (counters_ok_file_iter self fs nmax (input_files self) initial
                (counters_ok_initial self)) as [_ Hi Ho Ha].
  unfold _main_loop.
  destruct (file_iter self fs nmax (input_files self) initial) as [st r].
  cbn [fst snd] in *. subst r. exists st.
  rewrite Hi, Ho, Ha, Hsel, Hl. repeat split; done.
Qed.

Lemma X9_main_loop_complete_pass_witness :
  nprint Sample.city <> 0 /\
  (forall k, max_events_reached Sample.city (-1) k = false) /\
  forallb (loadable Sample.fs) (input_files Sample.city) = true /\
  exists st,
    _main_loop Sample.city Sample.fs (-1) =
      (st, Ok (Z.of_nat (length (all_calls Sample.fs (input_files Sample.city))),
               Z.of_nat (length (omap (answer Sample.city)
                           (all_calls Sample.fs (input_files Sample.city)))))) /\
    selected st = all_calls Sample.fs (input_files Sample.city) /\
    sink st = omap (answer Sample.city)
                (all_calls Sample.fs (input_files Sample.city)) /\
    (MaxEventsReached ∉ stdout st).
Proof.
  assert (Hnever : forall k, max_events_reached Sample.city (-1) k = false)
    by (intros k; by apply City_max_events_reached_neg).
  split; [discriminate|]. split; [exact Hnever|]. split; [reflexivity|].
  apply (X9_main_loop_complete_pass Sample.city Sample.fs (-1));
    [discriminate | exact Hnever | reflexivity].
Defined.

(** ** Files without PMap data *)

Lemma same_data_refl st : same_data st st.
Proof. by repeat split. Qed.

Lemma same_data_print m1 m2 st1 st2 :
  same_data st1 st2 -> same_data (print m1 st1) (print m2 st2).
Proof. done. Qed.

Lemma same_data_print_l m st1 st2 :
  same_data st1 st2 -> same_data (print m st1) st2.
Proof. done. Qed.

Lemma same_data_counted self c st1 st2 :
  same_data st1 st2 -> same_data (counted self c st1) (counted self c st2).
Proof.
  intros (Hi & Ho & Hs & Hc). unfold same_data.
  by rewrite !counted_nevt_in, !counted_nevt_out, !counted_sink,
    !counted_selected, Hi, Ho, Hs, Hc.
Qed.

Lemma same_data_event_step self nmax pm evt_number evt_time st1 st2 :
  same_data st1 st2 ->
  same_data (fst (event_step self nmax pm evt_number evt_time st1))
            (fst (event_step self nmax pm evt_number evt_time st2)) /\
  snd (event_step self nmax pm evt_number evt_time st1) =
    snd (event_step self nmax pm evt_number evt_time st2).
Proof.
  intros H. rewrite !event_step_unfold. cbv zeta.
  pose proof (same_data_counted self (call_of pm (evt_number, evt_time))
                st1 st2 H) as Hc.
  destruct Hc as (Hi & Hrest).
  destruct (nprint self =? 0); cbn [fst snd]; [by split|].
  rewrite Hi. split; [|done].
  destruct (_ =? 0); [apply same_data_print|]; by split.
Qed.

Lemma same_data_event_iter self nmax pm evts : forall st1 st2,
  same_data st1 st2 ->
  same_data (fst (event_iter self nmax pm evts st1))
            (fst (event_iter self nmax pm evts st2)) /\
  snd (event_iter self nmax pm evts st1) =
    snd (event_iter self nmax pm evts st2).
Proof.
  induction evts as [|[evt_number evt_time] rest IH]; intros st1 st2 H;
    simpl; [by split|].
  destruct (same_data_event_step self nmax pm evt_number evt_time st1 st2 H)
    as [Hd Hr].
  destruct (event_step self nmax pm evt_number evt_time st1) as [st1' r1].
  destruct (event_step self nmax pm evt_number evt_time st2) as [st2' r2].
  cbn [fst snd] in *. subst r2. destruct r1 as [[|]|e]; cbn [fst snd]; auto.
Qed.

Lemma same_data_file_iter self fs nmax files : forall st1 st2,
  same_data st1 st2 ->
  let kept := List.filter (fun f => negb (skipped fs f)) files in
  same_data (fst (file_iter self fs nmax files st1))
            (fst (file_iter self fs nmax kept st2)) /\
  snd (file_iter self fs nmax files st1) =
    snd (file_iter self fs nmax kept st2).
Proof.
  induction files as [|filename rest IH]; intros st1 st2 H; [by split|].
  cbn [List.filter]. cbv zeta in IH.
  destruct (load_pmaps fs filename) as [pm|e] eqn:Hl.
  - assert (skipped fs filename = false) as ->
      by (unfold skipped; by rewrite Hl).
    cbn [negb file_iter]. rewrite Hl.
    destruct (get_event_numbers_and_timestamps_from_file_name fs filename)
      as [event_numbers timestamps]. unfold _event_loop.
    destruct (same_data_event_iter self nmax pm (zip event_numbers timestamps)
                (print (Opening filename) st1) (print (Opening filename) st2))
      as [Hd Hr]; [by apply same_data_print|].
    destruct (event_iter self nmax pm _ (print (Opening filename) st1))
      as [st1' r1].
    destruct (event_iter self nmax pm _ (print (Opening filename) st2))
      as [st2' r2].
    cbn [fst snd] in *. subst r2. destruct r1 as [[|]|e]; cbn [fst snd].
    + split; [by apply same_data_print | done].
    + apply IH. by apply same_data_print.
    + by split.
  - destruct (is_empty_file_error e) eqn:He.
    + assert (skipped fs filename = true) as ->
        by (unfold skipped; by rewrite Hl).
      cbn [negb file_iter]. rewrite Hl, He.
      apply IH. by do 2 apply same_data_print_l.
    + assert (skipped fs filename = false) as ->
        by (unfold skipped; by rewrite Hl).
      cbn [negb file_iter]. rewrite Hl, He. cbn [fst snd]. split; [|done].
      by apply same_data_print.
Qed.

Lemma event_iter_with_files self files nmax pm evts : forall st,
  event_iter (with_files self files) nmax pm evts st =
    event_iter self nmax pm evts st.
Proof.
  induction evts as [|[evt_number evt_time] rest IH]; intros st; simpl; [done|].
  change (event_step (with_files self files) nmax pm evt_number evt_time st)
    with (event_step self nmax pm evt_number evt_time st).
  destruct (event_step self nmax pm evt_number evt_time st) as [st1 [[|]|e]];
    auto.
Qed.

Lemma file_iter_with_files self files fs nmax fl : forall st,
  file_iter (with_files self files) fs nmax fl st = file_iter self fs nmax fl st.
Proof.
  induction fl as [|filename rest IH]; intros st; simpl; [done|].
  destruct (load_pmaps fs filename) as [pm|e].
  - destruct (get_event_numbers_and_timestamps_from_file_name fs filename)
      as [event_numbers timestamps]. unfold _event_loop.
    rewrite event_iter_with_files.
    destruct (event_iter self nmax pm _ _) as [st1 [[|]|e]]; auto.
  - destruct (is_empty_file_error e); auto.
Qed.

(** X10.  Input files whose [load_pmaps] raises [ValueError] or
    [NoSuchNodeError] are harmless: dropping them from the list of input
    files changes neither what the main loop returns or raises, nor the
    counters, nor the records written, nor the calls of [select_event]; only
    the printed lines differ. *)
Theorem X10_skipped_files_harmless (self : City) (fs : FileSystem) (nmax : Z) :
  let kept := List.filter (fun f => negb (skipped fs f)) (input_files self) in
  let r := _main_loop self fs nmax in
  let r' := _main_loop (with_files self kept) fs nmax in
  snd r = snd r' /\
  nevt_in (fst r) = nevt_in (fst r') /\
  nevt_out (fst r) = nevt_out (fst r') /\
  sink (fst r) = sink (fst r') /\
  selected (fst r) = selected (fst r').
Proof.
  intros kept r r'. subst r r'. unfold _main_loop.
  simpl input_files. rewrite file_iter_with_files.
  destruct (same_data_file_iter self fs nmax (input_files self)
              initial initial (same_data_refl initial)) as [Hd Hr].
  fold kept in Hd, Hr.
  destruct (file_iter self fs nmax (input_files self) initial) as [st1 r1].
  destruct (file_iter self fs nmax kept initial) as [st2 r2].
  cbn [fst snd] in *. subst r2. destruct Hd as (Hi & Ho & Hs & Hc).
  destruct r1 as [[]|e]; cbn [fst snd]; rewrite ?Hi, ?Ho; by repeat split.
Qed.

(** ** What the run and the driver report *)

Lemma ratio_bounds n_in n_out :
  0 < n_in -> 0 <= n_out <= n_in ->
  (0 <= inject_Z n_out / inject_Z n_in)%Q /\
  (inject_Z n_out / inject_Z n_in <= 1)%Q.
Proof.
  intros Hpos [Hlo Hhi].
  assert (0 < inject_Z n_in)%Q as Hq.
  { change 0%Q with (inject_Z 0). by rewrite <- (Zlt_Qlt 0 n_in). }
  split.
  - apply Qle_shift_div_l; [done|]. rewrite Qmult_0_l.
    change 0%Q with (inject_Z 0). by rewrite <- (Zle_Qle 0 n_out).
  - apply Qle_shift_div_r; [done|]. rewrite Qmult_1_l.
    by rewrite <- (Zle_Qle n_out n_in).
Qed.

Lemma run_report
    (self : City) (fs : FileSystem) (nmax : Z) (st : State) (n_in n_out : Z) :
  run self fs nmax = (st, Ok (n_in, n_out)) ->
  0 < n_in /\ 0 <= n_out <= n_in /\
  n_in = Z.of_nat (length (selected st)) /\
  n_out = Z.of_nat (length (sink st)) /\
  sink st = sink (fst (_main_loop self fs nmax)) /\
  exists ratio,
    stdout st = stdout (fst (_main_loop self fs nmax))
                  ++ [Summary n_in n_out ratio] /\
    ratio = (inject_Z n_out / inject_Z n_in)%Q /\
    (0 <= ratio)%Q /\ (ratio <= 1)%Q.
Proof.
  intros Hrun.
  destruct (run_Ok_inv _ _ _ _ _ _ Hrun) as (Hpos & _ & st0 & Hm).
  rewrite (run_returns _ _ _ _ _ _ Hm) in Hrun.
  destruct (n_in =? 0) eqn:Hz; [lia|]. injection Hrun as <-.
  destruct (_main_loop_returns _ _ _ _ _ _ Hm) as [Hi Ho].
  assert (counters_ok self st0) as [Hb Hci Hco _].
  { replace st0 with (fst (_main_loop self fs nmax)) by (by rewrite Hm).
    rewrite _main_loop_state.
    apply counters_ok_file_iter, counters_ok_initial. }
  rewrite Hm. cbn [fst sink stdout selected print].
  split; [done|]. split; [lia|]. split; [lia|]. split; [lia|].
  split; [done|]. eexists. split; [done|]. split; [done|].
  apply ratio_bounds; lia.
Qed.

(** X11.  When [run] returns [(nevt_in, nevt_out)], at least one event was
    read, [nevt_out] is the number of records in the sink and [nevt_in] the
    number of calls of [select_event]; the last line printed is the summary
    with these two numbers and their ratio, which lies between 0 and 1; the
    summary leaves the sink as the main loop left it. *)
Theorem X11_run_report
    (self : City) (fs : FileSystem) (nmax : Z) (st : State) (n_in n_out : Z) :
  run self fs nmax = (st, Ok (n_in, n_out)) ->
  0 < n_in /\ 0 <= n_out <= n_in /\
  n_in = Z.of_nat (length (selected st)) /\
  n_out = Z.of_nat (length (sink st)) /\
  sink st = sink (fst (_main_loop self fs nmax)) /\
  exists ratio,
    stdout st = stdout (fst (_main_loop self fs nmax))
                  ++ [Summary n_in n_out ratio] /\
    ratio = (inject_Z n_out / inject_Z n_in)%Q /\
    (0 <= ratio)%Q /\ (ratio <= 1)%Q.
Proof. apply run_report. Qed.

Lemma X11_run_report_witness :
  run Sample.city Sample.fs 4 =
    (fst (run Sample.city Sample.fs 4), Ok (4, 2)) /\
  0 < 4 /\ 0 <= 2 <= 4 /\
  4 = Z.of_nat (length (selected (fst (run Sample.city Sample.fs 4)))) /\
  2 = Z.of_nat (length (sink (fst (run Sample.city Sample.fs 4)))).
Proof.
  assert (H : run Sample.city Sample.fs 4 =
                (fst (run Sample.city Sample.fs 4), Ok (4, 2)))
    by (vm_compute; reflexivity).
  split; [exact H|].
  destruct (X11_run_report Sample.city Sample.fs 4 _ 4 2 H)
    as (H1 & H2 & H3 & H4 & _).
  repeat split; try exact H3; try exact H4; lia.
Defined.

(** X12.  When the driver completes, the main loop has returned a positive
    number of events, the last two lines printed are the summary of [run]
    and the timing line with [dt / nevt_in], in this order, and the sink is
    as the main loop left it. *)
Theorem X12_driver_report
    (CFP : Config) (dorothea : City) (fs : FileSystem) (dt : Q) (st : State) :
  DOROTHEA CFP dorothea fs dt = (st, Ok tt) ->
  let nevts := if negb (RUN_ALL CFP) then NEVENTS CFP else -1 in
  exists n_in n_out ratio per_event,
    stdout st = stdout (fst (_main_loop dorothea fs nevts))
                  ++ [Summary n_in n_out ratio;
                      TimeSummary n_in dt per_event] /\
    snd (_main_loop dorothea fs nevts) = Ok (n_in, n_out) /\
    0 < n_in /\
    per_event = (dt / inject_Z n_in)%Q /\
    sink st = sink (fst (_main_loop dorothea fs nevts)).
Proof.
  intros Hd nevts. unfold DOROTHEA in Hd. fold nevts in Hd.
  destruct (run dorothea fs nevts) as [st0 [[n_in n_out]|e]] eqn:Hrun;
    [|discriminate].
  destruct (run_report _ _ _ _ _ _ Hrun)
    as (Hpos & _ & _ & _ & Hsink & ratio & Hout & _).
  destruct (run_Ok_inv _ _ _ _ _ _ Hrun) as (_ & _ & st1 & Hm).
  unfold fdiv in Hd. destruct (n_in =? 0) eqn:Hz; [discriminate|].
  injection Hd as <-. exists n_in, n_out, ratio, (dt / inject_Z n_in)%Q.
  cbn [stdout sink print]. rewrite Hout, <- app_assoc.
  split; [done|]. split; [by rewrite Hm|]. split; [done|].
  done.
Qed.

Lemma X12_driver_report_witness :
  DOROTHEA (mkConfig 4 false) Sample.city Sample.fs 3 =
    (fst (DOROTHEA (mkConfig 4 false) Sample.city Sample.fs 3), Ok tt) /\
  exists n_in n_out ratio per_event,
    stdout (fst (DOROTHEA (mkConfig 4 false) Sample.city Sample.fs 3)) =
      stdout (fst (_main_loop Sample.city Sample.fs 4))
        ++ [Summary n_in n_out ratio; TimeSummary n_in 3 per_event] /\
    snd (_main_loop Sample.city Sample.fs 4) = Ok (n_in, n_out) /\
    0 < n_in /\
    per_event = (3 / inject_Z n_in)%Q /\
    sink (fst (DOROTHEA (mkConfig 4 false) Sample.city Sample.fs 3)) =
      sink (fst (_main_loop Sample.city Sample.fs 4)).
Proof.
  assert (H : DOROTHEA (mkConfig 4 false) Sample.city Sample.fs 3 =
                (fst (DOROTHEA (mkConfig 4 false) Sample.city Sample.fs 3),
                 Ok tt)) by (vm_compute; reflexivity).
  split; [exact H|].
  exact (X12_driver_report (mkConfig 4 false) Sample.city Sample.fs 3 _ H).
Defined.

(** ** The order of the input files *)

Lemma ascii_compare_trans a b c :
  Ascii.compare a b <> Gt -> Ascii.compare b c <> Gt ->
  Ascii.compare a c <> Gt /\
  (Ascii.compare a c = Eq ->
   Ascii.compare a b = Eq /\ Ascii.compare b c = Eq).
Proof.
  unfold Ascii.compare. rewrite !N.compare_gt_iff, !N.compare_eq_iff. lia.
Qed.

Lemma string_compare_trans s1 : forall s2 s3,
  String.compare s1 s2 <> Gt -> String.compare s2 s3 <> Gt ->
  String.compare s1 s3 <> Gt.
Proof.
  induction s1 as [|c1 s1 IH]; intros [|c2 s2] [|c3 s3]; simpl; try done.
  intros H12 H23.
  destruct (ascii_compare_trans c1 c2 c3) as [Hgt Heq].
  - by destruct (Ascii.compare c1 c2).
  - by destruct (Ascii.compare c2 c3).
  - destruct (Ascii.compare c1 c3) eqn:H13; try done.
    destruct (Heq eq_refl) as [E12 E23].
    rewrite E12 in H12. rewrite E23 in H23. by apply (IH s2 s3).
Qed.

Lemma str_le_compare s1 s2 : str_le s1 s2 <-> String.compare s1 s2 <> Gt.
Proof.
  unfold str_le, String.leb. destruct (String.compare s1 s2); split; done.
Qed.

#[local] Instance str_le_trans : Transitive str_le.
Proof.
  intros s1 s2 s3. rewrite !str_le_compare. apply string_compare_trans.
Qed.

#[local] Instance str_le_total : Total str_le.
Proof. intros s1 s2. apply String.leb_total. Qed.

#[local] Instance str_le_antisymm : AntiSymm eq str_le.
Proof. intros s1 s2. apply String.leb_antisym. Qed.

Lemma sorted_Sorted names : Sorted str_le (sorted names).
Proof. apply (Sorted_merge_sort str_le). Qed.

Lemma sorted_Permutation names : sorted names ≡ₚ names.
Proof. apply merge_sort_Permutation. Qed.

(** X13.  The driver hands [sorted(glob.glob(CFP.FILE_IN))] to the
    constructor: the files are processed in ascending order of name, each
    name the glob returned once per occurrence, and two listings of the same
    files in different orders give the same file list, hence the same run
    with the same output. *)
Theorem X13_glob_order_irrelevant
    (CFP : Config) (dorothea : City) (fs : FileSystem) (dt : Q)
    (listing1 listing2 : list string) :
  listing1 ≡ₚ listing2 ->
  Sorted str_le (sorted listing1) /\
  sorted listing1 ≡ₚ listing1 /\
  sorted listing1 = sorted listing2 /\
  DOROTHEA CFP (with_files dorothea (sorted listing1)) fs dt =
    DOROTHEA CFP (with_files dorothea (sorted listing2)) fs dt.
Proof.
  intros Hperm.
  assert (Heq : sorted listing1 = sorted listing2).
  { apply (Sorted_unique str_le); try apply sorted_Sorted.
    by rewrite !sorted_Permutation. }
  split; [apply sorted_Sorted|]. split; [apply sorted_Permutation|].
  split; [done|]. by rewrite Heq.
Qed.

Lemma X13_glob_order_irrelevant_witness :
  ["run2.h5"; "run10.h5"; "run1.h5"] ≡ₚ ["run1.h5"; "run2.h5"; "run10.h5"] /\
  sorted ["run2.h5"; "run10.h5"; "run1.h5"]
    = ["run1.h5"; "run10.h5"; "run2.h5"] /\
  sorted ["run2.h5"; "run10.h5"; "run1.h5"]
    = sorted ["run1.h5"; "run2.h5"; "run10.h5"].
Proof.
  assert (H : ["run2.h5"; "run10.h5"; "run1.h5"]
                ≡ₚ ["run1.h5"; "run2.h5"; "run10.h5"]).
  { etrans; [apply perm_skip, perm_swap | apply perm_swap]. }
  split; [exact H|]. split; [vm_compute; reflexivity|].
  apply (X13_glob_order_irrelevant (mkConfig 4 false) Sample.city Sample.fs 3
           _ _ H).
Defined.
